(** * qtpy: configuration store, binding resolution and DPI scaling

    A shallow embedding of [qtpy/__init__.py]: the persistent key/value
    store behind [get_env]/[set_env] (registry on [nt], a shell file on
    [posix]), the module-level resolution of [QT_API], and [scaled];
    then the error classes for missing modules with their use in
    [Qt3DRender.py], the keyword wrappers and the font size of
    [QtWidgets.py], the size list of [QtSelector.py], and the import of
    the module by a later process, after which alone [get_env] can be
    called there.

    Conventions of the embedding
    - Python [str] values are [string]s whose characters are read as the
      code points 0..255; [lower], [strip] and friends follow Python on
      that range.
    - Python [float] is IEEE 754 binary64, computed with the reference
      operations of [SpecFloat] at precision 53 and maximal exponent 1024.
    - A Python call either returns a value or raises: [outcome]. *)

From Stdlib Require Import ZArith Ascii DecimalString DecimalNat.
From Stdlib Require Import Floats.SpecFloat.
From stdpp Require Import gmap strings list fin_maps.

Local Open Scope Z_scope.
Set Warnings "-register-all".

(** ** Exceptions and outcomes *)

Inductive exn : Type :=
| ValueError
| OverflowError
| IndexError
| KeyError
| TypeError
| FileNotFoundError
| PythonQtValueError
| QtBindingsNotFoundError
| OtherError.

Inductive outcome (A : Type) : Type :=
| Ok (a : A)
| Raise (e : exn).
Arguments Ok {A} a.
Arguments Raise {A} e.

Definition bind {A B : Type} (x : outcome A) (k : A -> outcome B) : outcome B :=
  match x with
  | Ok a => k a
  | Raise e => Raise e
  end.

Global Instance outcome_ret : MRet outcome := @Ok.
Global Instance outcome_bind : MBind outcome := fun A B k x => bind x k.
Global Instance outcome_fmap : FMap outcome :=
  fun A B f x => bind x (fun a => Ok (f a)).

(** ** Text *)

Module Text.

Definition nl : ascii := ascii_of_nat 10.
Definition cr : ascii := ascii_of_nat 13.
Definition NL : string := String nl "".

Definition code (c : ascii) : nat := nat_of_ascii c.

(** [str.isspace] on one code point below 256. *)
Definition is_space (c : ascii) : bool :=
  let n := code c in
  ((9 <=? n) && (n <=? 13) || (28 <=? n) && (n <=? 32) || (n =? 133) || (n =? 160))%nat.

(** [str.lower] on one code point: A-Z and the Latin-1 capitals. *)
Definition lower_char (c : ascii) : ascii :=
  let n := code c in
  if ((65 <=? n) && (n <=? 90) || (192 <=? n) && (n <=? 222) && negb (n =? 215))%nat
  then ascii_of_nat (n + 32) else c.

Fixpoint lower (s : string) : string :=
  match s with
  | EmptyString => EmptyString
  | String c r => String (lower_char c) (lower r)
  end.

(** [str.upper] on one code point; sharp s expands to two letters. The
    code points 181 and 255, whose capitals lie above 255, are left as
    they are. *)
Definition upper_char (c : ascii) : string :=
  let n := code c in
  if ((97 <=? n) && (n <=? 122) || (224 <=? n) && (n <=? 254) && negb (n =? 247))%nat
  then String (ascii_of_nat (n - 32)) ""
  else if (n =? 223)%nat then "SS"
  else String c "".

Fixpoint upper (s : string) : string :=
  match s with
  | EmptyString => EmptyString
  | String c r => upper_char c +:+ upper r
  end.

(** [s.startswith(p)] *)
Fixpoint startswith (p s : string) : bool :=
  match p, s with
  | EmptyString, _ => true
  | String a p', String b s' => if decide (a = b) then startswith p' s' else false
  | String _ _, EmptyString => false
  end.

(** [s[n:]] *)
Fixpoint drop (n : nat) (s : string) : string :=
  match n, s with
  | O, _ => s
  | S n', String _ r => drop n' r
  | S _, EmptyString => EmptyString
  end.

Fixpoint lstrip (s : string) : string :=
  match s with
  | EmptyString => EmptyString
  | String c r => if is_space c then lstrip r else s
  end.

Fixpoint rstrip (s : string) : string :=
  match s with
  | EmptyString => EmptyString
  | String c r =>
      match rstrip r with
      | EmptyString => if is_space c then EmptyString else String c EmptyString
      | r' => String c r'
      end
  end.

(** [s.strip()] *)
Definition strip (s : string) : string := rstrip (lstrip s).

(** [s.split(sep)] for a one-character separator; never empty. *)
Fixpoint split (sep : ascii) (s : string) : list string :=
  match s with
  | EmptyString => [EmptyString]
  | String c r =>
      if decide (c = sep) then EmptyString :: split sep r
      else match split sep r with
           | [] => [String c EmptyString]
           | p :: ps => String c p :: ps
           end
  end.

(** [c in s] *)
Fixpoint contains (c : ascii) (s : string) : bool :=
  match s with
  | EmptyString => false
  | String a r => if decide (a = c) then true else contains c r
  end.

(** What a text file gives when opened for reading with the default
    [newline]: every [\r\n] and every lone [\r] has become [\n]. *)
Fixpoint universal_newlines (s : string) : string :=
  match s with
  | EmptyString => EmptyString
  | String c r =>
      if decide (c = cr) then
        String nl
          match r with
          | EmptyString => EmptyString
          | String c' r' =>
              if decide (c' = nl) then universal_newlines r'
              else universal_newlines r
          end
      else String c (universal_newlines r)
  end.

(** [f.readlines()] on the translated text: cut after every newline,
    terminators kept. *)
Fixpoint readlines (s : string) : list string :=
  match s with
  | EmptyString => []
  | String c r =>
      if decide (c = nl) then String c EmptyString :: readlines r
      else match readlines r with
           | [] => [String c EmptyString]
           | l :: ls => String c l :: ls
           end
  end.

(** [f.writelines(lines)] on an empty file: the strings one after another. *)
Fixpoint writelines (lines : list string) : string :=
  match lines with
  | [] => EmptyString
  | l :: ls => l +:+ writelines ls
  end.

(** The tail of [s] is a newline. *)
Fixpoint ends_with_nl (s : string) : bool :=
  match s with
  | EmptyString => false
  | String c EmptyString => if decide (c = nl) then true else false
  | String _ r => ends_with_nl r
  end.

(** [s.count(c)] for one character. *)
Fixpoint count (c : ascii) (s : string) : nat :=
  match s with
  | EmptyString => O
  | String a r => if decide (a = c) then S (count c r) else count c r
  end.

End Text.


(** ** The configuration store on [posix] *)

Module Posix.
Import Text.

(** The path [~/.config/plasma-workspace/env/QtEnvironment.sh]: its
    directory may be missing, the file may be missing, or the file is
    there with its characters. Access rights are taken for granted. *)
Inductive path_state : Type :=
| NoDirectory
| NoFile
| File (raw : string).

(** What a process and its successors share: the environment of the
    running process and the state of the path. *)
Record world : Type := {
  environ : gmap string string;
  env_path : path_state
}.

(** [f.readlines()] for a file opened with [open(env_path, "r")]. *)
Definition lines_of (raw : string) : list string :=
  readlines (universal_newlines raw).

Definition NUL : ascii := ascii_of_nat 0.

(** [os.environ[key] = value]: the interpreter refuses an empty name, a
    name with [=] and embedded zero characters. *)
Definition legal_assignment (key value : string) : bool :=
  negb (bool_decide (key = "")) && negb (contains "=" key)
  && negb (contains NUL key) && negb (contains NUL value).

Definition environ_setitem (env : gmap string string) (key value : string)
  : outcome (gmap string string) :=
  if legal_assignment key value then Ok (<[key := value]> env)
  else Raise ValueError.

(** One turn of the loop at start-up: [key, value = line[7:].strip().split("=")]
    unpacks exactly two parts. *)
Definition load_line (d : gmap string string) (line : string)
  : outcome (gmap string string) :=
  if startswith "export " line then
    match split "=" (strip (drop 7 line)) with
    | [key; value] => Ok (<[key := value]> d)
    | _ => Raise ValueError
    end
  else Ok d.

Fixpoint load_lines (d : gmap string string) (lines : list string)
  : outcome (gmap string string) :=
  match lines with
  | [] => Ok d
  | line :: rest => d' ← load_line d line; load_lines d' rest
  end.

(** The dictionary [orignal_environ] built when the module is loaded. *)
Definition orignal_environ (path : path_state) : outcome (gmap string string) :=
  match path with
  | File raw => load_lines ∅ (lines_of raw)
  | _ => Ok ∅
  end.

(** [get_env(key, default)]; [None] stands for Python's [None]. *)
Definition get_env (env orig : gmap string string) (key : string)
  (default : option string) : option string :=
  match env !! key with
  | Some v => Some v
  | None =>
      match orig !! key with
      | Some v => Some v
      | None => default
      end
  end.

(** Index of the first line that starts with [p], if any. *)
Fixpoint find_line (p : string) (lines : list string) : option nat :=
  match lines with
  | [] => None
  | line :: rest =>
      if startswith p line then Some O else S <$> find_line p rest
  end.

Definition export_line (key value : string) : string :=
  "export " +:+ key +:+ "=" +:+ value +:+ NL.

(** The list handed to [writelines]. *)
Definition new_lines (path : path_state) (key value : string) : list string :=
  match path with
  | File raw =>
      let lines := lines_of raw in
      match find_line ("export " +:+ key +:+ "=") lines with
      | Some i => <[i := export_line key value]> lines
      | None => lines ++ [export_line key value]
      end
  | _ => [export_line key value]
  end.

(** [set_env(key, value)]; [open(env_path, "w")] needs the directory. *)
Definition set_env (w : world) (key value : string) : outcome world :=
  env' ← environ_setitem (environ w) key value;
  match env_path w with
  | NoDirectory => Raise FileNotFoundError
  | path =>
      Ok {| environ := env';
            env_path := File (writelines (new_lines path key value)) |}
  end.

(** No line break inside: neither newline nor carriage return. *)
Fixpoint plain (s : string) : bool :=
  match s with
  | EmptyString => true
  | String c r =>
      negb (bool_decide (c = nl)) && negb (bool_decide (c = cr)) && plain r
  end.

(** The text read is empty or its last line has its terminator. *)
Definition terminated (raw : string) : bool :=
  bool_decide (universal_newlines raw = "") || ends_with_nl (universal_newlines raw).

(** Lines as [readlines] returns them: each is non-empty, and a newline
    occurs only as the last character of a line that is not the last. *)

Fixpoint is_line (s : string) : bool :=
  match s with
  | EmptyString => false
  | String c EmptyString => true
  | String c r => negb (bool_decide (c = nl)) && is_line r
  end.

Fixpoint are_lines (ls : list string) : bool :=
  match ls with
  | [] => true
  | [l] => is_line l
  | l :: rest => is_line l && ends_with_nl l && are_lines rest
  end.

(** The start-up loop accepts [line]. *)
Definition loads (line : string) : bool :=
  if startswith "export " line then
    match split "=" (strip (drop 7 line)) with
    | [_; _] => true
    | _ => false
    end
  else true.

(** The start-up loop binds [key] at [line]. *)
Definition defines (key line : string) : bool :=
  startswith "export " line &&
  match split "=" (strip (drop 7 line)) with
  | [k; _] => bool_decide (k = key)
  | _ => false
  end.

(** No line after the first one that starts with [p] binds [key]. *)
Fixpoint settled (p key : string) (lines : list string) : bool :=
  match lines with
  | [] => true
  | line :: rest =>
      if startswith p line then forallb (fun l => negb (defines key l)) rest
      else settled p key rest
  end.

(** A line with its terminator. *)
Definition full_line (l : string) : bool := is_line l && ends_with_nl l.

(** Keys that survive the file: not empty, no [=], no line break, no
    zero character, no white space in front. *)
Definition storable_key (k : string) : bool :=
  negb (bool_decide (k = "")) && negb (contains "=" k) && plain k
  && negb (contains NUL k) && bool_decide (lstrip k = k).

(** Values that survive the file: no [=], no line break, no zero
    character, no white space at the end. *)
Definition storable_value (v : string) : bool :=
  negb (contains "=" v) && plain v && negb (contains NUL v)
  && bool_decide (rstrip v = v).

(** A machine where nothing has been stored yet. *)
Definition no_store : world := {| environ := ∅; env_path := NoFile |}.

(** A file as two calls of [set_env] leave it. *)
Definition two_settings : string :=
  "export QT_API=pyqt5" +:+ NL +:+ "export QT_SCALE=1.5" +:+ NL.

(** A file whose last line was saved without its newline. *)
Definition unterminated : string := "export QT_API=pyqt5".

End Posix.

(** ** The configuration store on [nt] *)

Module Nt.
Import Text.

(** A process: the block inherited from the parent ([nt.environ]) and
    [os.environ], whose keys the interpreter keeps in upper case. *)
Record process : Type := {
  environ_nt : list (string * string);
  os_environ : gmap string string
}.

(** The two registry keys read by [get_env]; value names do not
    distinguish case and are kept in upper case. *)
Record registry : Type := {
  HKCU_Environment : gmap string string;
  HKLM_Environment : gmap string string
}.

(** [{key.upper(): value for key, value in environ_nt.items()}] *)
Definition orignal_environ (p : process) : gmap string string :=
  foldl (fun d kv => <[upper kv.1 := kv.2]> d) ∅ (environ_nt p).

(** Keys of [os.environ] whose value is not the inherited one. *)
Definition python_redefined_keys (p : process) : gset string :=
  dom (filter (fun kv => orignal_environ p !! kv.1 ≠ Some kv.2) (os_environ p)).

(** [winreg.QueryValueEx(reg_key, key)[0]] *)
Definition QueryValueEx (reg_key : gmap string string) (key : string)
  : outcome string :=
  match reg_key !! upper key with
  | Some v => Ok v
  | None => Raise FileNotFoundError
  end.

(** [get_env(key, default)] *)
Definition get_env (p : process) (reg : registry) (key : string)
  (default : option string) : outcome (option string) :=
  if decide (key ∈ python_redefined_keys p) then
    match os_environ p !! upper key with
    | Some v => Ok (Some v)
    | None => Raise KeyError
    end
  else
    match QueryValueEx (HKCU_Environment reg) key with
    | Ok v => Ok (Some v)
    | Raise _ =>
        match QueryValueEx (HKLM_Environment reg) key with
        | Ok v => Ok (Some v)
        | Raise _ =>
            Ok (match os_environ p !! upper key with
                | Some v => Some v
                | None => default
                end)
        end
    end.

(** [get_env(key, default)] later in the life of a process: [keys] is
    the set [python_redefined_keys] as it was computed when the module
    was loaded, [p] the process as it is now. *)
Definition get_env_loaded (keys : gset string) (p : process) (reg : registry)
  (key : string) (default : option string) : outcome (option string) :=
  if decide (key ∈ keys) then
    match os_environ p !! upper key with
    | Some v => Ok (Some v)
    | None => Raise KeyError
    end
  else
    match QueryValueEx (HKCU_Environment reg) key with
    | Ok v => Ok (Some v)
    | Raise _ =>
        match QueryValueEx (HKLM_Environment reg) key with
        | Ok v => Ok (Some v)
        | Raise _ =>
            Ok (match os_environ p !! upper key with
                | Some v => Some v
                | None => default
                end)
        end
    end.

(** A command handed to [subprocess.Popen]; nobody waits for it. *)
Inductive command : Type :=
| Setx (key value : string).

Definition NUL : ascii := ascii_of_nat 0.

(** [os.environ[key] = value] on Windows: an empty name, an [=] after the
    first character and zero characters are refused. *)
Definition legal_assignment (key value : string) : bool :=
  negb (bool_decide (key = "")) && negb (contains "=" (drop 1 key))
  && negb (contains NUL key) && negb (contains NUL value).

(** [set_env(key, value)]: the new process state and the command spawned. *)
Definition set_env (p : process) (key value : string)
  : outcome (process * command) :=
  if legal_assignment key value then
    Ok ({| environ_nt := environ_nt p;
           os_environ := <[upper key := value]> (os_environ p) |},
        Setx key value)
  else Raise ValueError.

(** The registry once a spawned command has run to success. *)
Definition completed (c : command) (reg : registry) : registry :=
  match c with
  | Setx key value =>
      {| HKCU_Environment := <[upper key := value]> (HKCU_Environment reg);
         HKLM_Environment := HKLM_Environment reg |}
  end.

(** A process that inherited nothing, and a registry without values. *)
Definition bare_process : process := {| environ_nt := []; os_environ := ∅ |}.
Definition empty_registry : registry :=
  {| HKCU_Environment := ∅; HKLM_Environment := ∅ |}.

(** A process in which Python code set [QT_API] before the module was
    loaded, over an inherited value. *)
Definition overriding_process : process :=
  {| environ_nt := [("QT_API", "pyqt5")];
     os_environ := {["QT_API" := "pyside6"]} |}.

(** A process that inherited [QT_API] from its parent and left it. *)
Definition inheriting_process : process :=
  {| environ_nt := [("QT_API", "pyside2")];
     os_environ := {["QT_API" := "pyside2"]} |}.

(** A registry where the user key holds [QT_API]. *)
Definition user_registry : registry :=
  {| HKCU_Environment := {["QT_API" := "pyqt5"]}; HKLM_Environment := ∅ |}.

End Nt.

(** ** Resolution of the binding *)

Module Resolver.
Import Text.

Definition API_NAMES : list (string * string) :=
  [("pyqt5", "PyQt5"); ("pyside2", "PySide2");
   ("pyqt6", "PyQt6"); ("pyside6", "PySide6")].

(** [list(API_NAMES.values())] *)
Definition modules : list string := API_NAMES.*2.

Definition PYQT5_API : list string := ["pyqt5"].
Definition PYQT6_API : list string := ["pyqt6"].
Definition PYSIDE2_API : list string := ["pyside2"].
Definition PYSIDE6_API : list string := ["pyside6"].

(** How the body of one [try] ends: it runs through, it raises
    [ImportError], or it raises something else (such as the
    [PythonQtError] of the macOS gates), which no handler catches. *)
Inductive attempt : Type :=
| Imported
| ImportFails
| Escapes.

(** What the module reads from the interpreter while it resolves. *)
Record interpreter : Type := {
  argv0_name : string;              (* os.path.split(sys.argv[0])[1] *)
  sys_modules : gset string;        (* names present in sys.modules *)
  find_spec : string -> bool;       (* importlib.util.find_spec(m) is not None *)
  try_body : string -> attempt;     (* the imports of the try block of a binding *)
  binding_specified : bool          (* QT_API in os.environ *)
}.

(** Probes and imports, in the order they happen. *)
Inductive event : Type :=
| FindSpec (m : string)
| ImportOf (m : string).

Record resolution : Type := {
  API : string;
  initial_api : string;
  API_NAME : option string;
  fallback_warning : bool
}.

(** First loop of the [auto] branch: [Some] when it leaves by [break]. *)
Fixpoint first_loaded (py : interpreter) (ms : list string) : option string :=
  match ms with
  | [] => None
  | m :: rest =>
      if decide (m ∈ sys_modules py) then Some (lower m)
      else first_loaded py rest
  end.

(** Second loop of the [auto] branch. Its [else] is attached to the [if],
    so the first turn either breaks or raises; with nothing to iterate
    over, [API] keeps its value. *)
Definition first_importable (py : interpreter) (ms : list string) (api : string)
  : outcome string * list event :=
  match ms with
  | [] => (Ok api, [])
  | m :: _ =>
      if find_spec py m then (Ok (lower m), [FindSpec m])
      else (Raise QtBindingsNotFoundError, [FindSpec m])
  end.

(** Lines 266-277. *)
Definition auto_select (py : interpreter) (api : string)
  : outcome string * list event :=
  if decide (api = "auto") then
    match first_loaded py modules with
    | Some a => (Ok a, [])
    | None => first_importable py modules api
    end
  else (Ok api, []).

(** One of the four [if API in ...: try ... except ImportError ...]
    blocks: [names] guards it, [m] is imported, [next] is what the
    handler does. *)
Definition stage (py : interpreter) (names : list string) (m : string)
  (next : outcome string) (st : outcome string * list event)
  : outcome string * list event :=
  match st with
  | (Ok api, tr) =>
      if decide (api ∈ names) then
        match try_body py m with
        | Imported => (Ok api, tr ++ [ImportOf m])
        | ImportFails => (next, tr ++ [ImportOf m])
        | Escapes => (Raise OtherError, tr ++ [ImportOf m])
        end
      else (Ok api, tr)
  | (Raise e, tr) => (Raise e, tr)
  end.

(** Lines 293-368. *)
Definition import_chain (py : interpreter) (api : string)
  : outcome string * list event :=
  stage py PYSIDE6_API "PySide6" (Raise QtBindingsNotFoundError)
    (stage py PYQT6_API "PyQt6" (Ok "pyside6")
       (stage py PYSIDE2_API "PySide2" (Ok "pyqt6")
          (stage py PYQT5_API "PyQt5" (Ok "pyside2") (Ok api, [])))).

(** Lines 261-382, for the value [API_] that [get_env(QT_API, "auto")]
    returned. *)
Definition resolve (py : interpreter) (API_ : string)
  : outcome resolution * list event :=
  let api := lower API_ in
  let api := if decide (argv0_name py = "spyder") then "pyqt5" else api in
  match auto_select py api with
  | (Raise e, tr) => (Raise e, tr)
  | (Ok api, tr) =>
      let initial := api in
      if decide (api ∉ API_NAMES.*1 ++ API_NAMES.*2) then
        (Raise PythonQtValueError, tr)
      else
        match import_chain py api with
        | (Raise e, tr') => (Raise e, tr ++ tr')
        | (Ok api, tr') =>
            (Ok {| API := api;
                   initial_api := initial;
                   API_NAME := (list_to_map API_NAMES : gmap string string) !! api;
                   fallback_warning :=
                     negb (bool_decide (api = initial)) && binding_specified py |},
             tr ++ tr')
        end
  end.

(** The same interpreter started under another script name. *)
Definition with_argv0 (name : string) (py : interpreter) : interpreter :=
  {| argv0_name := name;
     sys_modules := sys_modules py;
     find_spec := find_spec py;
     try_body := try_body py;
     binding_specified := binding_specified py |}.

(** A host with only PySide2 installed and nothing loaded yet. *)
Definition only_pyside2 : interpreter :=
  {| argv0_name := "python";
     sys_modules := ∅;
     find_spec := fun m => bool_decide (m = "PySide2");
     try_body := fun m => if bool_decide (m = "PySide2") then Imported else ImportFails;
     binding_specified := false |}.

(** A host with all four bindings installed, started as [name], where
    [loaded] is already in [sys.modules]. *)
Definition full_host (name : string) (loaded : gset string) : interpreter :=
  {| argv0_name := name;
     sys_modules := loaded;
     find_spec := fun _ => true;
     try_body := fun _ => Imported;
     binding_specified := true |}.

End Resolver.

(** ** Numbers *)

Module Num.

(** Python's [float]: binary64. *)
Definition float : Type := spec_float.
Definition prec : Z := 53.
Definition emax : Z := 1024.

Definition fmul : float -> float -> float := SFmul prec emax.
Definition fadd : float -> float -> float := SFadd prec emax.
Definition fdiv : float -> float -> float := SFdiv prec emax.

(** The float nearest to an integer (ties to even), as stored. *)
Definition nearest (z : Z) : float := binary_normalize prec emax z 0 false.

(** [float(z)]: an integer beyond the range raises. *)
Definition float_of_int (z : Z) : outcome float :=
  match nearest z with
  | S754_infinity _ => Raise OverflowError
  | f => Ok f
  end.

(** [sys.float_info.epsilon], two to the power -52. *)
Definition eps : float := S754_finite false (2 ^ 52) (-104).

Definition f192 : float := nearest 192.

(** An [int] or a [float]. *)
Inductive number : Type :=
| Int (z : Z)
| Float (f : float).

(** [a * b] *)
Definition mul (a b : number) : outcome number :=
  match a, b with
  | Int x, Int y => Ok (Int (x * y))
  | Int x, Float g => f ← float_of_int x; Ok (Float (fmul f g))
  | Float f, Int y => g ← float_of_int y; Ok (Float (fmul f g))
  | Float f, Float g => Ok (Float (fmul f g))
  end.

(** [a + b] *)
Definition add (a b : number) : outcome number :=
  match a, b with
  | Int x, Int y => Ok (Int (x + y))
  | Int x, Float g => f ← float_of_int x; Ok (Float (fadd f g))
  | Float f, Int y => g ← float_of_int y; Ok (Float (fadd f g))
  | Float f, Float g => Ok (Float (fadd f g))
  end.

(** Nearest integer to the magnitude [m * 2^e], ties to the even one. *)
Definition round_half_even (m : positive) (e : Z) : Z :=
  if 0 <=? e then Z.pos m * 2 ^ e
  else
    let d := 2 ^ (- e) in
    let q := Z.pos m / d in
    let r := Z.pos m mod d in
    match 2 * r ?= d with
    | Lt => q
    | Gt => q + 1
    | Eq => if Z.even q then q else q + 1
    end.

(** [round(x)] with one argument. *)
Definition round (x : number) : outcome Z :=
  match x with
  | Int z => Ok z
  | Float (S754_zero _) => Ok 0
  | Float (S754_finite s m e) =>
      Ok (if s then - round_half_even m e else round_half_even m e)
  | Float (S754_infinity _) => Raise OverflowError
  | Float S754_nan => Raise ValueError
  end.

(** [f == z] for a float and an integer: the two numbers are the same. *)
Definition float_eq_int (f : float) (z : Z) : bool :=
  match f with
  | S754_zero _ => z =? 0
  | S754_finite s m e =>
      let v := if s then Z.neg m else Z.pos m in
      if 0 <=? e then z =? v * 2 ^ e else z * 2 ^ (- e) =? v
  | _ => false
  end.

(** [x == z] *)
Definition eq_int (x : number) (z : Z) : bool :=
  match x with
  | Int y => y =? z
  | Float f => float_eq_int f z
  end.

(** [f] holds on the [2^bits] integers from [base * 2^bits] on; a
    range is checked by evaluating this. *)
Fixpoint all_below (f : Z -> bool) (bits : nat) (base : Z) : bool :=
  match bits with
  | O => f base
  | S b => all_below f b (2 * base) && all_below f b (2 * base + 1)
  end.

End Num.

(** ** The scale transform *)

Module Scale.
Import Num.

(** Lines 429-435, after [float(...)] has read the stored text: [None]
    stands for the preference [auto]. *)
Definition initial_QT_SCALE (preference : option float) : outcome (option number) :=
  match preference with
  | None => Ok None
  | Some f =>
      r ← round (Float f);
      Ok (Some (if float_eq_int f r then Int r else Float f))
  end.

(** Objects handed to [scaled]. A generator object remembers the tuple
    it still has to walk; an instance of any other class (a [QSize], a
    [QMargins]) is kept with the factors its own [__mul__] was given. The
    fields of a rectangle are C [int]s: [QRect] below builds one. *)
Inductive value : Type :=
| VInt (n : Z)
| VBool (b : bool)
| VFloat (f : float)
| VRect (x y width height : Z)
| VTuple (elts : list value)
| VList (elts : list value)
| VGen (pending : list value)
| VOther (cls : string) (factors : list number).

(** The screens of the application, each with its
    [logicalDotsPerInch()]. *)
Record display : Type := {
  screens : list float
}.

(** Module state: the global [QT_SCALE] and the number of times
    [logicalDotsPerInch] has been asked. *)
Record runtime : Type := {
  QT_SCALE : option number;
  dpi_queries : nat
}.

(** Lines 441-443. *)
Definition current_scale (d : display) (st : runtime) : outcome number * runtime :=
  match QT_SCALE st with
  | Some s => (Ok s, st)
  | None =>
      match screens d with
      | [] => (Raise IndexError, st)
      | dpi :: _ =>
          let s := Float (fdiv dpi f192) in
          (Ok s, {| QT_SCALE := Some s; dpi_queries := S (dpi_queries st) |})
      end
  end.

(** [int(round(n * scale + eps))] *)
Definition scale_int (n : Z) (scale : number) : outcome Z :=
  p ← mul (Int n) scale;
  s ← add p (Float eps);
  round s.

(** [obj * scale] for a float [obj]. *)
Definition scale_float (f : float) (scale : number) : outcome float :=
  p ← mul (Float f) scale;
  match p with
  | Float g => Ok g
  | Int _ => Raise TypeError
  end.

(** A Python [int] that a Qt function declared with a C [int]
    parameter takes. *)
Definition c_int (z : Z) : bool := (- 2 ^ 31 <=? z) && (z <? 2 ^ 31).

(** [QtCore.QRect(x, y, width, height)]: the bindings refuse an [int]
    outside the range of a C [int] with [OverflowError]. *)
Definition QRect (x y width height : Z) : outcome value :=
  if c_int x && c_int y && c_int width && c_int height
  then Ok (VRect x y width height)
  else Raise OverflowError.

(** [scaled(obj)], the call with no further argument. The statement
    [if scale == 0: scale] does nothing and is left out. *)
Fixpoint scaled1 (d : display) (obj : value) (st : runtime) {struct obj}
  : outcome value * runtime :=
  match current_scale d st with
  | (Raise e, st') => (Raise e, st')
  | (Ok scale, st') =>
      if eq_int scale 1 then (Ok obj, st')
      else
        match obj with
        | VRect x y width height =>
            (x' ← scale_int x scale;
             y' ← scale_int y scale;
             w' ← scale_int width scale;
             h' ← scale_int height scale;
             QRect x' y' w' h', st')
        | VInt n => (VInt <$> scale_int n scale, st')
        | VBool b => (VInt <$> scale_int (Z.b2z b) scale, st')
        | VTuple elts => (Ok (VGen elts), st')
        | VList elts =>
            let each :=
              fix each (l : list value) (s : runtime) {struct l}
                : outcome (list value) * runtime :=
                match l with
                | [] => (Ok [], s)
                | elt :: rest =>
                    match scaled1 d elt s with
                    | (Raise e, s') => (Raise e, s')
                    | (Ok v, s') =>
                        match each rest s' with
                        | (r, s'') => (cons v <$> r, s'')
                        end
                    end
                end in
            match each elts st' with
            | (r, st'') => (VList <$> r, st'')
            end
        | VFloat f => (VFloat <$> scale_float f scale, st')
        | VGen _ => (Raise TypeError, st')
        | VOther cls factors => (Ok (VOther cls (factors ++ [scale])), st')
        end
  end.

(** [[scaled(elt) for elt in l]]; also what walking a generator object
    to its end yields. *)
Fixpoint scaled_each (d : display) (l : list value) (st : runtime)
  : outcome (list value) * runtime :=
  match l with
  | [] => (Ok [], st)
  | elt :: rest =>
      match scaled1 d elt st with
      | (Raise e, st') => (Raise e, st')
      | (Ok v, st') =>
          match scaled_each d rest st' with
          | (r, st'') => (cons v <$> r, st'')
          end
      end
  end.

(** [scaled(obj, *args)] *)
Definition scaled (d : display) (obj : value) (args : list value) (st : runtime)
  : outcome value * runtime :=
  match args with
  | [] => scaled1 d obj st
  | _ :: _ =>
      match current_scale d st with
      | (Raise e, st') => (Raise e, st')
      | (Ok _, st') => scaled1 d (VTuple (obj :: args)) st'
      end
  end.

(** [tuple(g)], [list(g)] or an unpacking of a generator object. *)
Definition consume (d : display) (g : value) (st : runtime)
  : outcome (list value) * runtime :=
  match g with
  | VGen pending => scaled_each d pending st
  | _ => (Raise TypeError, st)
  end.

(** What a program does with the transform, one step at a time. *)
Inductive action : Type :=
| Call (obj : value) (args : list value)
| Walk (g : value).

Definition perform (d : display) (a : action) (st : runtime) : runtime :=
  match a with
  | Call obj args => (scaled d obj args st).2
  | Walk g => (consume d g st).2
  end.

Definition run (d : display) (acts : list action) (st : runtime) : runtime :=
  foldl (fun s a => perform d a s) st acts.

(** [int(round(p + eps))] is [p]. *)
Definition eps_is_lost (p : Z) : bool :=
  match (s ← add (Int p) (Float eps); round s) with
  | Ok z => z =? p
  | Raise _ => false
  end.

(** Half of [v], to the nearest integer, a tie going to the even one. *)
Definition half_to_even (v : Z) : Z :=
  if Z.even v then v / 2
  else if Z.even (v / 2) then v / 2 else v / 2 + 1.

(** The same, with the two ties that the added [eps] moves up: 1 and -3. *)
Definition half_with_eps (v : Z) : Z :=
  if (v =? 1) || (v =? -3) then half_to_even v + 1 else half_to_even v.

(** Module state right after import when the preference is [auto]. *)
Definition fresh : runtime := {| QT_SCALE := None; dpi_queries := 0 |}.

(** Module state right after import for an explicit factor. *)
Definition cached (s : number) : runtime := {| QT_SCALE := Some s; dpi_queries := 0 |}.

(** One screen at 96 dots per inch. *)
Definition standard_screen : display := {| screens := [nearest 96] |}.

(** 0.5 and 1.5 *)
Definition half : float := fdiv (nearest 1) (nearest 2).
Definition one_and_half : float := fdiv (nearest 3) (nearest 2).

End Scale.


(** ** Keyword renaming around the file dialogs ([QtWidgets.py]) *)

Module Widgets.

Section Wrappers.
Context {V A R : Type}.

(** [if old in kwargs: kwargs[new] = kwargs.pop(old)] *)
Definition move_key (old new : string) (kwargs : gmap string V) : gmap string V :=
  match kwargs !! old with
  | Some v => <[new := v]> (delete old kwargs)
  | None => kwargs
  end.

(** A function called with positional and keyword arguments. *)
Definition callable : Type := A -> gmap string V -> R.

(** [_dir_to_directory(func)] *)
Definition _dir_to_directory (func : callable) : callable :=
  fun args kwargs => func args (move_key "dir" "directory" kwargs).

(** [_directory_to_dir(func)] *)
Definition _directory_to_dir (func : callable) : callable :=
  fun args kwargs => func args (move_key "directory" "dir" kwargs).

(** Lines 107-116: what a method of [QFileDialog] is replaced with. *)
Definition patched (PYSIDE2 PYSIDE6 : bool) (func : callable) : callable :=
  if PYSIDE2 || PYSIDE6 then _directory_to_dir func else _dir_to_directory func.

End Wrappers.

End Widgets.

(** ** The errors for missing modules ([__init__.py], raised from [Qt3DRender.py]) *)

Module Errors.

(** A keyword argument: a string or [None]. *)
Inductive value : Type :=
| Str (s : string)
| PyNone.

Global Instance value_eq_dec : EqDecision value.
Proof. solve_decision. Defined.

(** [str(v)] *)
Definition str (v : value) : string :=
  match v with
  | Str s => s
  | PyNone => "None"
  end.

(** Truth value, as [or] tests it. *)
Definition truthy (v : value) : bool :=
  match v with
  | Str (String _ _) => true
  | _ => false
  end.

Definition is_digit (c : ascii) : bool :=
  ((48 <=? Text.code c) && (Text.code c <=? 57))%nat.

Fixpoint all_digits (s : string) : bool :=
  match s with
  | EmptyString => true
  | String c r => is_digit c && all_digits r
  end.

(** Characters that open a conversion, a format specification, an
    attribute or index lookup, or a nested field. *)
Definition extended (c : ascii) : bool := Text.contains c "!:.[{".

(** No brace in [s]. *)
Definition brace_free (s : string) : bool :=
  negb (Text.contains "{" s) && negb (Text.contains "}" s).

Definition emit (s : string) (r : option (outcome string)) : option (outcome string) :=
  match r with
  | Some (Ok t) => Some (Ok (s +:+ t))
  | _ => r
  end.

(** [template.format] called with the keywords [kwargs], left to right. [field] is the replacement
    field being read, if any. Covered: literal text, doubled braces and
    fields that are a keyword name. The result is [None] at a field that
    is a number or uses a conversion, a format specification, an
    attribute or an index. *)
Fixpoint format_go (look : string -> option value) (field : option string)
    (t : string) : option (outcome string) :=
  match field, t with
  | None, EmptyString => Some (Ok "")
  | None, String c rest =>
      if decide (c = "{"%char) then
        match rest with
        | String c' rest' =>
            if decide (c' = "{"%char) then emit "{" (format_go look None rest')
            else format_go look (Some "") rest
        | EmptyString => format_go look (Some "") rest
        end
      else if decide (c = "}"%char) then
        match rest with
        | String c' rest' =>
            if decide (c' = "}"%char) then emit "}" (format_go look None rest')
            else Some (Raise ValueError)
        | EmptyString => Some (Raise ValueError)
        end
      else emit (String c "") (format_go look None rest)
  | Some f, EmptyString => Some (Raise ValueError)
  | Some f, String c rest =>
      if decide (c = "}"%char) then
        match f with
        | EmptyString => Some (Raise IndexError)
        | _ =>
            if all_digits f then None
            else match look f with
                 | None => Some (Raise KeyError)
                 | Some v => emit (str v) (format_go look None rest)
                 end
        end
      else if extended c then None
      else format_go look (Some (f +:+ String c "")) rest
  end.

Definition format (template : string) (kwargs : gmap string value) : option (outcome string) :=
  format_go (fun k => kwargs !! k) None template.

(** The keyword dictionary of a call with the keywords [explicit]
    followed by the unpacked dictionary [rest]; [duplicate] is what the
    interpreter raises for a keyword given twice. *)
Fixpoint keywords (duplicate : exn) (explicit : list (string * value))
    (rest : gmap string value) : outcome (gmap string value) :=
  match explicit with
  | [] => Ok rest
  | (k, v) :: more =>
      match rest !! k with
      | Some _ => Raise duplicate
      | None => kw ← keywords duplicate more rest; Ok (<[k := v]> kw)
      end
  end.

Inductive cls : Type :=
| QtModuleNotFoundError
| QtModuleNotInOSError
| QtModuleNotInQtVersionError
| QtBindingMissingModuleError
| QtModuleNotInstalledError.

Global Instance cls_eq_dec : EqDecision cls.
Proof. solve_decision. Defined.

Definition _msg (c : cls) : string :=
  match c with
  | QtModuleNotInOSError => "{name} does not exist on this operating system."
  | QtModuleNotInQtVersionError => "{name} does not exist in {version}."
  | _ => "The {name} module was not found."
  end.

Definition _msg_binding (c : cls) : string := "{binding}".

Definition _msg_extra (c : cls) : string :=
  match c with
  | QtBindingMissingModuleError => "It is not currently implemented in {binding}."
  | QtModuleNotInstalledError => "It must be installed separately"
  | _ => ""
  end.

(** The module globals the constructors read, and one trait of the
    interpreter. A keyword given twice, once by name and once in the
    unpacked dictionary, makes the merge fail with [KeyError], which the
    interpreter rewrites into [TypeError]. While another exception is
    being handled the rewriting is skipped by CPython up to 3.11, and
    the [KeyError] comes through; from 3.12 on it is [TypeError] there
    too. [rewrites_merge_error] tells which of the two the interpreter
    is. *)
Record globals : Type := {
  API_NAME : string;
  QT5 : bool;
  rewrites_merge_error : bool
}.

(** What a keyword given twice raises; [handling] tells whether the call
    is made while an exception is being handled. *)
Definition duplicate_keyword (g : globals) (handling : bool) : exn :=
  if handling && negb (rewrites_merge_error g) then KeyError else TypeError.

(** The exception object: its class, what [ModuleNotFoundError.__init__]
    stores, and the attribute [missing_package] where it was set. *)
Record error : Type := {
  class : cls;
  msg : string;
  name : value;
  missing_package : option value
}.

(** [QtModuleNotFoundError.__init__(self, **kwargs)] on an instance of
    class [c] whose [_msg_extra] is [extra]. *)
Definition QtModuleNotFoundError_init (g : globals) (handling : bool) (c : cls)
    (extra : string) (attribute : option value) (kwargs : gmap string value) :
    option (outcome error) :=
  match kwargs !! "name" with
  | None => Some (Raise TypeError)
  | Some name =>
      let msg := default PyNone (kwargs !! "msg") in
      let msg_kwargs := delete "msg" (delete "name" kwargs) in
      match format (_msg_binding c) {[ "binding" := Str (API_NAME g) ]} with
      | Some (Ok binding) =>
          let msg := if truthy msg then str msg
                     else Text.strip (_msg c +:+ " " +:+ extra) in
          match keywords (duplicate_keyword g handling)
                  [("name", name); ("binding", Str binding)] msg_kwargs with
          | Ok kw =>
              match format msg kw with
              | Some (Ok msg) =>
                  Some (Ok {| class := c; msg := msg; name := name;
                              missing_package := attribute |})
              | Some (Raise e) => Some (Raise e)
              | None => None
              end
          | Raise e => Some (Raise e)
          end
      | Some (Raise e) => Some (Raise e)
      | None => None
      end
  end.

(** [QtModuleNotInQtVersionError.__init__(self, **kwargs)] *)
Definition QtModuleNotInQtVersionError_init (g : globals) (handling : bool)
    (c : cls) (kwargs : gmap string value) : option (outcome error) :=
  match kwargs !! "name" with
  | None => Some (Raise TypeError)
  | Some name =>
      let version := if QT5 g then "Qt5" else "Qt6" in
      QtModuleNotFoundError_init g handling c (_msg_extra c) None
        {[ "name" := name; "version" := Str version ]}
  end.

(** [QtModuleNotInstalledError.__init__(self, **kwargs)] *)
Definition QtModuleNotInstalledError_init (g : globals) (handling : bool)
    (c : cls) (kwargs : gmap string value) : option (outcome error) :=
  let missing_package := default PyNone (kwargs !! "missing_package") in
  let superclass_kwargs := delete "missing_package" kwargs in
  let extra := match missing_package with
               | PyNone => _msg_extra c
               | _ => _msg_extra c +:+ " as {missing_package}."
               end in
  match keywords (duplicate_keyword g handling)
          [("missing_package", missing_package)] superclass_kwargs with
  | Ok kw => QtModuleNotFoundError_init g handling c extra (Some missing_package) kw
  | Raise e => Some (Raise e)
  end.

(** The constructor call of class [c] with keyword arguments only;
    [handling] tells whether it is made while an exception is being
    handled. Every [__init__] has the parameter [self], so a keyword of
    that name is refused before the body runs. *)
Definition construct (g : globals) (handling : bool) (c : cls)
    (kwargs : gmap string value) : option (outcome error) :=
  match kwargs !! "self" with
  | Some _ => Some (Raise TypeError)
  | None =>
      match c with
      | QtModuleNotInQtVersionError =>
          QtModuleNotInQtVersionError_init g handling c kwargs
      | QtModuleNotInstalledError =>
          QtModuleNotInstalledError_init g handling c kwargs
      | _ => QtModuleNotFoundError_init g handling c (_msg_extra c) None kwargs
      end
  end.

(** The binding flags of [qtpy], as [Qt3DRender.py] imports them. *)
Record selected : Type := {
  PYQT5 : bool;
  PYQT6 : bool;
  PYSIDE2 : bool;
  PYSIDE6 : bool
}.

(** How the statements that load the binding's own [Qt3DRender] end. *)
Inductive binding_import : Type :=
| Succeeds
| ModuleNotFound
| Fails (e : exn).

(** How the import of [qtpy.Qt3DRender] ends. *)
Inductive ending : Type :=
| Imported
| RaisesModuleError (e : error)
| RaisesModuleNotFound
| RaisesPythonQtError
| RaisesException (e : exn).

(** The keywords of the call in [Qt3DRender.py]. *)
Definition Qt3DRender_keywords (g : globals) (package : string) : gmap string value :=
  {[ "name" := Str "Qt3DRender"; "binding" := Str (API_NAME g);
     "missing_package" := Str package ]}.

(** The module [Qt3DRender.py]; the error is built inside the handler
    of [ModuleNotFoundError]. *)
Definition Qt3DRender (g : globals) (b : selected) (imp : binding_import) :
    option ending :=
  let guarded package :=
    match imp with
    | Succeeds => Some Imported
    | ModuleNotFound =>
        match construct g true QtModuleNotInstalledError
                (Qt3DRender_keywords g package) with
        | Some (Ok e) => Some (RaisesModuleError e)
        | Some (Raise x) => Some (RaisesException x)
        | None => None
        end
    | Fails x => Some (RaisesException x)
    end in
  if PYQT5 b then guarded "PyQt3D"
  else if PYQT6 b then guarded "PyQt6-3D"
  else if PYSIDE2 b || PYSIDE6 b then
    match imp with
    | Succeeds => Some Imported
    | ModuleNotFound => Some RaisesModuleNotFound
    | Fails x => Some (RaisesException x)
    end
  else Some RaisesPythonQtError.

(** PyQt5 selected, on CPython 3.11. *)
Definition with_pyqt5 : globals :=
  {| API_NAME := "PyQt5"; QT5 := true; rewrites_merge_error := false |}.
Definition pyqt5_selected : selected :=
  {| PYQT5 := true; PYQT6 := false; PYSIDE2 := false; PYSIDE6 := false |}.

End Errors.


(** ** The font size of the application ([QtWidgets.py], [QtSelector.py]) *)

Module Fonts.
Import Text.

Fixpoint all_chars (p : ascii -> bool) (s : string) : bool :=
  match s with
  | EmptyString => true
  | String c r => p c && all_chars p r
  end.

Definition ascii_digit (c : ascii) : bool :=
  ((48 <=? code c) && (code c <=? 57))%nat.

(** One code point of [str.isdigit]: below 256 these are 0-9 and the
    superscripts 1, 2 and 3. *)
Definition digit_like (c : ascii) : bool :=
  let n := code c in
  ascii_digit c || ((n =? 178) || (n =? 179) || (n =? 185))%nat.

(** [s.isdigit()] *)
Definition isdigit (s : string) : bool :=
  match s with
  | EmptyString => false
  | _ => all_chars digit_like s
  end.

(** [s[:n]] for [n >= 0] *)
Fixpoint take (n : nat) (s : string) : string :=
  match n, s with
  | S n', String c r => String c (take n' r)
  | _, _ => EmptyString
  end.

(** [s.endswith(suffix)] *)
Definition endswith (suffix s : string) : bool :=
  (String.length suffix <=? String.length s)%nat
  && bool_decide (drop (String.length s - String.length suffix) s = suffix).

(** [s[:-6]] *)
Definition without_last_six (s : string) : string :=
  take (String.length s - 6) s.

(** The decimal digits of a number: [str(n)], [f"{n}"]. *)
Definition decimal (n : nat) : string :=
  NilZero.string_of_uint (Nat.to_uint n).

(** White space that [int] skips at both ends. *)
Definition int_space (c : ascii) : bool :=
  let n := code c in
  ((9 <=? n) && (n <=? 13) || (n =? 32) || (n =? 133) || (n =? 160))%nat.

Fixpoint int_lstrip (s : string) : string :=
  match s with
  | EmptyString => EmptyString
  | String c r => if int_space c then int_lstrip r else s
  end.

Fixpoint int_rstrip (s : string) : string :=
  match s with
  | EmptyString => EmptyString
  | String c r =>
      match int_rstrip r with
      | EmptyString => if int_space c then EmptyString else String c EmptyString
      | r' => String c r'
      end
  end.

(** Digits, with single underscores between them; [after_digit] tells
    whether the character before was a digit. *)
Fixpoint digits (acc : N) (after_digit : bool) (s : string) : option N :=
  match s with
  | EmptyString => if after_digit then Some acc else None
  | String c r =>
      if ascii_digit c then digits (10 * acc + N.of_nat (code c - 48)) true r
      else if decide (c = "_"%char) then
        if after_digit then digits acc false r else None
      else None
  end.

(** [int(s)]. A text of more than 640 characters is not covered: the
    interpreter may be set to refuse long numbers. *)
Definition int (s : string) : option (outcome Z) :=
  if (640 <? String.length s)%nat then None
  else
    let body := int_rstrip (int_lstrip s) in
    let signed :=
      match body with
      | String c r =>
          if decide (c = "-"%char) then (true, r)
          else if decide (c = "+"%char) then (false, r)
          else (false, body)
      | EmptyString => (false, body)
      end in
    match digits 0 false signed.2 with
    | Some n => Some (Ok (if signed.1 then - Z.of_N n else Z.of_N n))
    | None => Some (Raise ValueError)
    end.

(** [float(s)] for an [s] with [s.isdigit()]. *)
Definition float_of_digits (s : string) : outcome Num.float :=
  match digits 0 false s with
  | Some n => if all_chars ascii_digit s then Ok (Num.nearest (Z.of_N n))
              else Raise ValueError
  | None => Raise ValueError
  end.

(** Calls on the font object. *)
Inductive request : Type :=
| setPointSizeF (f : Num.float)
| setPixelSize (z : Z)
| setFamily (s : string).

(** The size part of [QApplication_new_init] for the module value
    [QT_FONT_SIZE]: the calls made on [self.font()]. [setPixelSize]
    takes a C [int]: the bindings refuse a number outside its range
    with [OverflowError]. *)
Definition size_requests (QT_FONT_SIZE : string) : option (outcome (list request)) :=
  if decide (QT_FONT_SIZE = "default") then Some (Ok [])
  else
    let points :=
      if isdigit QT_FONT_SIZE
      then (fun f => [setPointSizeF f]) <$> float_of_digits QT_FONT_SIZE
      else Ok [] in
    match points with
    | Raise e => Some (Raise e)
    | Ok ps =>
        if endswith "pixels" QT_FONT_SIZE
        then match int (without_last_six QT_FONT_SIZE) with
             | Some (Ok z) =>
                 if Scale.c_int z then Some (Ok (ps ++ [setPixelSize z]))
                 else Some (Raise OverflowError)
             | Some (Raise e) => Some (Raise e)
             | None => None
             end
        else Some (Ok ps)
    end.

(** The family part. *)
Definition family_requests (QT_FONT : string) : list request :=
  if decide (QT_FONT = "default") then [] else [setFamily QT_FONT].

(** [QApplication_new_init]: the calls made on the font before it is
    handed to [self.setFont]. *)
Definition QApplication_new_init (QT_FONT_SIZE QT_FONT : string) :
    option (outcome (list request)) :=
  match size_requests QT_FONT_SIZE with
  | Some (Ok rs) => Some (Ok (rs ++ family_requests QT_FONT))
  | r => r
  end.

(** [font_size_list] of [QtFontSizeSelector]. *)
Definition font_size_list : list string :=
  ["default"]
  ++ map decimal (seq 7 8)
  ++ map (fun pixels => decimal pixels +:+ " pixels") (seq 0 81).

(** [l.index(x)] for an [x] in [l]. *)
Fixpoint index (x : string) (l : list string) : nat :=
  match l with
  | [] => O
  | y :: r => if decide (y = x) then O else S (index x r)
  end.

(** [QtFontSizeSelector.__init__] for the stored value
    [current_font_size_]: the items of the box and the current index. *)
Definition QtFontSizeSelector_init (current_font_size_ : string) :
    outcome (list string * nat) :=
  let font_size_list_lower := map lower font_size_list in
  let current_font_size := lower current_font_size_ in
  if decide (current_font_size ∈ font_size_list_lower) then
    Ok (font_size_list, index current_font_size font_size_list_lower)
  else if isdigit current_font_size || endswith " pixels" current_font_size then
    Ok (font_size_list ++ [current_font_size],
        index current_font_size (font_size_list_lower ++ [current_font_size]))
  else Raise PythonQtValueError.

End Fonts.

(** ** A later process: the import of the module, then [get_env] *)

Module Later.
Import Text.

(** What the import needs from the process besides the store: the state
    of the interpreter for the resolution, the built-in [float] on a
    [str], how the statements end that touch neither the store nor
    [os.environ] once the binding is resolved (the fallback warning, the
    import of [QtDataVisualization], the version warnings, the imports
    of [QtCore] and [QtWidgets]), and on nt how the calls end that make
    the process DPI aware. *)
Record host : Type := {
  py : Resolver.interpreter;
  float : string -> outcome Num.float;
  others : Resolver.resolution -> outcome unit;
  dpi_aware : outcome unit
}.

(** The variables the module writes into [os.environ] while it is
    imported (lines 158-159, 319/342/355/368 and 383). *)
Definition written : list string :=
  ["QT_ENABLE_HIGHDPI_SCALING"; "QT_USE_PHYSICAL_DPI"; "QT_API"; "PYQTGRAPH_QT_LIB"].

(** [binding_specified = QT_API in os.environ] *)
Definition specified (env : gmap string string) (py : Resolver.interpreter)
  : Resolver.interpreter :=
  {| Resolver.argv0_name := Resolver.argv0_name py;
     Resolver.sys_modules := Resolver.sys_modules py;
     Resolver.find_spec := Resolver.find_spec py;
     Resolver.try_body := Resolver.try_body py;
     Resolver.binding_specified := bool_decide (is_Some (env !! "QT_API")) |}.

(** The statements of the module after the store (lines 158-435), for a
    process whose [get_env(key, default)] is [get] on the current
    [os.environ]: the new [os.environ], or the exception that ends the
    import. The keys written are in upper case, so the assignment is
    the same on both platforms. *)
Definition module_body (h : host)
    (get : gmap string string -> string -> string -> outcome string)
    (env : gmap string string) : outcome (gmap string string) :=
  let env := <["QT_USE_PHYSICAL_DPI" := "1"]> (<["QT_ENABLE_HIGHDPI_SCALING" := "0"]> env) in
  _ ← get env "QT_FONT_SIZE" "default";
  _ ← get env "QT_FONT" "default";
  API_ ← get env "QT_API" "auto";
  r ← (Resolver.resolve (specified env (py h)) API_).1;
  let env := <["QT_API" := Resolver.API r]> env in
  match Resolver.API_NAME r with
  | None => Raise KeyError
  | Some name =>
      let env := <["PYQTGRAPH_QT_LIB" := name]> env in
      _ ← others h r;
      s ← get env "QT_SCALE" "auto";
      _ ← (if decide (lower s = "auto") then Ok None
           else f ← float h (lower s); Scale.initial_QT_SCALE (Some f));
      Ok env
  end.

(** [get_env] on posix with a [str] default. *)
Definition posix_lookup (orig env : gmap string string) (key default : string)
  : outcome string :=
  Ok (match Posix.get_env env orig key (Some default) with
      | Some v => v
      | None => default
      end).

(** The import on posix by a process started with environment [env]
    over [path]: [os.environ] and [orignal_environ] when it is done. *)
Definition posix_import (h : host) (path : Posix.path_state)
    (env : gmap string string)
  : outcome (gmap string string * gmap string string) :=
  orig ← Posix.orignal_environ path;
  env' ← module_body h (posix_lookup orig) env;
  Ok (env', orig).

(** [get_env(key, default)] in that process, which it can call once the
    import is done. *)
Definition posix_get_env (h : host) (path : Posix.path_state)
    (env : gmap string string) (key : string) (default : option string)
  : outcome (option string) :=
  st ← posix_import h path env;
  Ok (Posix.get_env st.1 st.2 key default).

(** [get_env] on nt with a [str] default, for the set of keys computed
    when the module was loaded. *)
Definition nt_lookup (keys : gset string) (p : Nt.process) (reg : Nt.registry)
    (env : gmap string string) (key default : string) : outcome string :=
  r ← Nt.get_env_loaded keys
        {| Nt.environ_nt := Nt.environ_nt p; Nt.os_environ := env |}
        reg key (Some default);
  Ok (match r with
      | Some v => v
      | None => default
      end).

(** The import on nt by the process [p] over the registry [reg]: the
    set [python_redefined_keys] and the process when it is done. *)
Definition nt_import (h : host) (p : Nt.process) (reg : Nt.registry)
  : outcome (gset string * Nt.process) :=
  let keys := Nt.python_redefined_keys p in
  _ ← dpi_aware h;
  env' ← module_body h (nt_lookup keys p reg) (Nt.os_environ p);
  Ok (keys, {| Nt.environ_nt := Nt.environ_nt p; Nt.os_environ := env' |}).

(** [get_env(key, default)] in that process once the import is done. *)
Definition nt_get_env (h : host) (p : Nt.process) (reg : Nt.registry)
    (key : string) (default : option string) : outcome (option string) :=
  st ← nt_import h p reg;
  Nt.get_env_loaded st.1 st.2 reg key default.

(** A process named [python] with the four bindings installed and none
    loaded, where every other statement of the import goes through; its
    [float] is asked for texts of decimal digits only. *)
Definition plain_host : host :=
  {| py := Resolver.full_host "python" ∅;
     float := Fonts.float_of_digits;
     others := fun _ => Ok tt;
     dpi_aware := Ok tt |}.

(** A file that stores the binding only. *)
Definition one_setting : string := "export QT_API=pyqt5" +:+ NL.

End Later.


(** * Properties *)

(** Closed decidable facts, by evaluation. *)
Ltac by_evaluation := apply (bool_decide_unpack _); vm_compute; exact I.

Lemma bind_ok {A B : Type} (a : A) (k : A -> outcome B) : (Ok a ≫= k) = k a.
Proof. done. Qed.

Lemma fmap_ok {A B : Type} (f : A -> B) (a : A) : f <$> Ok a = Ok (f a).
Proof. done. Qed.

Lemma fmap_raise {A B : Type} (f : A -> B) (e : exn) :
  f <$> (Raise e : outcome A) = Raise e.
Proof. done. Qed.

(** ** Text *)

Section TextFacts.
Import Text Posix.

Lemma append_nil_l (s : string) : "" +:+ s = s.
Proof. done. Qed.

Lemma append_cons (c : ascii) (s t : string) : String c s +:+ t = String c (s +:+ t).
Proof. done. Qed.

Lemma append_nil_r (s : string) : s +:+ "" = s.
Proof. induction s as [|c s IH]; [done|]. by rewrite append_cons, IH. Qed.

Lemma append_assoc (s t u : string) : (s +:+ t) +:+ u = s +:+ t +:+ u.
Proof. induction s as [|c s IH]; [done|]. by rewrite !append_cons, IH. Qed.

Lemma writelines_app (l1 l2 : list string) :
  writelines (l1 ++ l2) = writelines l1 +:+ writelines l2.
Proof.
  induction l1 as [|l l1 IH]; [done|].
  cbn [writelines app]. by rewrite IH, append_assoc.
Qed.

(** Reading a text and writing the lines back gives the text again. *)
Lemma writelines_readlines (s : string) : writelines (readlines s) = s.
Proof.
  induction s as [|c s IH]; [done|].
  cbn [readlines]. case_decide.
  - cbn [writelines]. by rewrite IH, append_cons, append_nil_l.
  - destruct (readlines s) as [|l ls]; cbn [writelines] in *.
    + by rewrite <- IH.
    + by rewrite append_cons, IH.
Qed.

Lemma readlines_nil (s : string) : readlines s = [] -> s = "".
Proof.
  destruct s as [|c s]; [done|]. cbn [readlines].
  case_decide; [done|]. by destruct (readlines s).
Qed.

Lemma is_line_cons (c : ascii) (r : string) :
  is_line (String c r) = bool_decide (r = "") || negb (bool_decide (c = nl)) && is_line r.
Proof. destruct r; [done|]. by cbn. Qed.

Lemma ends_with_nl_cons (c : ascii) (r : string) :
  ends_with_nl (String c r) =
  if bool_decide (r = "") then bool_decide (c = nl) else ends_with_nl r.
Proof.
  destruct r as [|a r].
  - rewrite bool_decide_true by done. cbn.
    case_decide; [by rewrite bool_decide_true|by rewrite bool_decide_false].
  - by rewrite bool_decide_false.
Qed.

Lemma are_lines_cons (l : string) (rest : list string) :
  are_lines (l :: rest) =
  is_line l && (bool_decide (rest = []) || ends_with_nl l && are_lines rest).
Proof.
  destruct rest as [|l' rest]; cbn [are_lines].
  - by rewrite andb_true_r.
  - rewrite bool_decide_false by done. cbn. by rewrite andb_assoc.
Qed.

Lemma is_line_nonempty (l : string) : is_line l = true -> l <> "".
Proof. by destruct l. Qed.

Lemma readlines_are_lines (s : string) : are_lines (readlines s) = true.
Proof.
  induction s as [|c s IH]; [done|].
  cbn [readlines]. case_decide as Hc.
  - rewrite are_lines_cons, IH. subst c. cbn.
    by destruct (readlines s).
  - destruct (readlines s) as [|l ls]; [done|].
    rewrite are_lines_cons in IH. rewrite are_lines_cons.
    apply andb_true_iff in IH as [Hl Hrest].
    rewrite is_line_cons, ends_with_nl_cons, Hl.
    rewrite (bool_decide_false (l = "")) by by apply is_line_nonempty.
    rewrite (bool_decide_false (c = nl)) by done. done.
Qed.

Lemma readlines_single (l : string) : is_line l = true -> readlines l = [l].
Proof.
  induction l as [|c r IH]; [done|].
  rewrite is_line_cons. intros H.
  cbn [readlines]. destruct r as [|a r].
  - by destruct (decide (c = nl)).
  - rewrite bool_decide_false in H by done. cbn [orb] in H.
    apply andb_true_iff in H as [Hc Hr].
    apply negb_true_iff, bool_decide_eq_false in Hc.
    rewrite decide_False by done. by rewrite (IH Hr).
Qed.

Lemma readlines_line_app (l t : string) :
  is_line l = true -> ends_with_nl l = true ->
  readlines (l +:+ t) = l :: readlines t.
Proof.
  induction l as [|c r IH]; [done|].
  rewrite is_line_cons, ends_with_nl_cons, append_cons. intros Hl He.
  cbn [readlines]. destruct r as [|a r].
  - rewrite bool_decide_true in He by done.
    apply bool_decide_eq_true in He. by rewrite decide_True.
  - rewrite bool_decide_false in Hl, He by done. cbn [orb] in Hl.
    apply andb_true_iff in Hl as [Hc Hr].
    apply negb_true_iff, bool_decide_eq_false in Hc.
    rewrite decide_False by done. by rewrite (IH Hr He).
Qed.

(** Lines that are well formed are what [readlines] finds in the text
    [writelines] makes of them. *)
Lemma readlines_writelines (ls : list string) :
  are_lines ls = true -> readlines (writelines ls) = ls.
Proof.
  induction ls as [|l rest IH]; [done|].
  rewrite are_lines_cons. intros H.
  apply andb_true_iff in H as [Hl H].
  cbn [writelines]. destruct rest as [|l' rest].
  - cbn [writelines]. rewrite append_nil_r. by apply readlines_single.
  - rewrite bool_decide_false in H by done. cbn [orb] in H.
    apply andb_true_iff in H as [He Hrest].
    rewrite readlines_line_app by done. by rewrite IH.
Qed.

Lemma plain_app (s t : string) : plain (s +:+ t) = plain s && plain t.
Proof.
  induction s as [|c s IH]; [done|].
  rewrite append_cons. cbn [plain]. by rewrite IH, andb_assoc.
Qed.

Lemma is_line_plain_nl (s : string) : plain s = true -> is_line (s +:+ NL) = true.
Proof.
  induction s as [|c s IH]; [done|].
  cbn [plain]. intros H. apply andb_true_iff in H as [Hc Hs].
  apply andb_true_iff in Hc as [Hc _].
  rewrite append_cons, is_line_cons, Hc, (IH Hs). by rewrite orb_true_r.
Qed.

Lemma contains_app (c : ascii) (s t : string) :
  contains c (s +:+ t) = contains c s || contains c t.
Proof.
  induction s as [|a s IH]; [done|].
  rewrite append_cons. cbn [contains]. by destruct (decide (a = c)).
Qed.

Lemma contains_writelines (c : ascii) (ls : list string) :
  contains c (writelines ls) = existsb (contains c) ls.
Proof.
  induction ls as [|l ls IH]; [done|].
  cbn [writelines existsb]. by rewrite contains_app, IH.
Qed.

Lemma plain_no_cr (s : string) : plain s = true -> contains cr s = false.
Proof.
  induction s as [|c s IH]; [done|].
  cbn [plain contains]. intros H. apply andb_true_iff in H as [Hc Hs].
  apply andb_true_iff in Hc as [_ Hc].
  apply negb_true_iff, bool_decide_eq_false in Hc.
  rewrite decide_False by done. by apply IH.
Qed.

Lemma universal_newlines_bounded (n : nat) (s : string) :
  (String.length s <= n)%nat -> contains cr (universal_newlines s) = false.
Proof.
  revert s. induction n as [|n IH]; intros [|c s] Hlen; try done.
  { cbn [String.length] in Hlen. lia. }
  cbn [String.length] in Hlen. cbn [universal_newlines].
  destruct (decide (c = cr)) as [->|Hc].
  - cbn [contains]. rewrite decide_False by done.
    destruct s as [|c' s']; [done|].
    cbn [String.length] in Hlen.
    destruct (decide (c' = nl)); apply IH; cbn [String.length]; lia.
  - cbn [contains]. rewrite decide_False by done. apply IH. lia.
Qed.

(** The text read has no carriage return left. *)
Lemma universal_newlines_no_cr (s : string) :
  contains cr (universal_newlines s) = false.
Proof. by apply (universal_newlines_bounded (String.length s)). Qed.

(** A text without carriage return is read as it is. *)
Lemma universal_newlines_id (s : string) :
  contains cr s = false -> universal_newlines s = s.
Proof.
  induction s as [|c s IH]; [done|].
  cbn [contains universal_newlines].
  destruct (decide (c = cr)); [done|]. intros H. by rewrite (IH H).
Qed.

Lemma lines_of_no_cr (raw : string) : existsb (contains cr) (lines_of raw) = false.
Proof.
  unfold lines_of.
  by rewrite <- contains_writelines, writelines_readlines, universal_newlines_no_cr.
Qed.

(** Lines that are well formed and free of carriage returns are what is
    read from the file [writelines] makes of them. *)
Lemma lines_of_writelines (ls : list string) :
  are_lines ls = true -> existsb (contains cr) ls = false ->
  lines_of (writelines ls) = ls.
Proof.
  intros Hwf Hcr. unfold lines_of.
  rewrite universal_newlines_id by by rewrite contains_writelines.
  by apply readlines_writelines.
Qed.

Lemma ends_with_nl_app (s t : string) :
  ends_with_nl (s +:+ t) = if bool_decide (t = "") then ends_with_nl s else ends_with_nl t.
Proof.
  induction s as [|c s IH].
  - rewrite append_nil_l. case_bool_decide; by subst.
  - rewrite append_cons, !ends_with_nl_cons, IH.
    destruct t as [|a t].
    + by rewrite append_nil_r, (bool_decide_true ("" = "")).
    + rewrite (bool_decide_false (String a t = "")) by done.
      rewrite bool_decide_false; [done|]. by destruct s.
Qed.

Lemma export_line_is_line (k v : string) :
  plain k = true -> plain v = true -> is_line (export_line k v) = true.
Proof.
  intros Hk Hv. unfold export_line.
  replace ("export " +:+ k +:+ "=" +:+ v +:+ NL)
    with (("export " +:+ k +:+ "=" +:+ v) +:+ NL)
    by by rewrite !append_assoc.
  apply is_line_plain_nl. by rewrite !plain_app, Hk, Hv.
Qed.

Lemma export_line_no_cr (k v : string) :
  plain k = true -> plain v = true -> contains cr (export_line k v) = false.
Proof.
  intros Hk Hv. unfold export_line.
  by rewrite !contains_app, (plain_no_cr k Hk), (plain_no_cr v Hv).
Qed.

Lemma export_line_ends_with_nl (k v : string) : ends_with_nl (export_line k v) = true.
Proof.
  unfold export_line.
  replace ("export " +:+ k +:+ "=" +:+ v +:+ NL)
    with (("export " +:+ k +:+ "=" +:+ v) +:+ NL)
    by by rewrite !append_assoc.
  by rewrite ends_with_nl_app.
Qed.

Lemma are_lines_app (pre : list string) (x : string) (post : list string) :
  are_lines (pre ++ x :: post) = forallb full_line pre && are_lines (x :: post).
Proof.
  induction pre as [|l pre IH]; [done|].
  cbn [app forallb]. rewrite are_lines_cons, IH.
  rewrite bool_decide_false by by destruct pre.
  unfold full_line. cbn [orb]. by rewrite !andb_assoc.
Qed.

Lemma are_lines_snoc (ls : list string) (new : string) :
  are_lines ls = true ->
  writelines ls = "" \/ ends_with_nl (writelines ls) = true ->
  full_line new = true ->
  are_lines (ls ++ [new]) = true.
Proof.
  intros Hls Hend Hnew. unfold full_line in Hnew.
  apply andb_true_iff in Hnew as [Hn1 Hn2].
  induction ls as [|l rest IH]; [done|].
  rewrite are_lines_cons in Hls. apply andb_true_iff in Hls as [Hl Hrest].
  cbn [app]. rewrite are_lines_cons, Hl.
  rewrite bool_decide_false by by destruct rest.
  cbn [orb andb]. cbn [writelines] in Hend.
  destruct rest as [|l' rest].
  - cbn [writelines] in Hend. rewrite append_nil_r in Hend.
    destruct Hend as [->|Hend]; [done|]. rewrite Hend. done.
  - rewrite bool_decide_false in Hrest by done. cbn [orb] in Hrest.
    apply andb_true_iff in Hrest as [He Hrest]. rewrite He. cbn [andb].
    apply IH; [done|]. right.
    destruct Hend as [Hend|Hend].
    + destruct l; [done|]. by rewrite append_cons in Hend.
    + rewrite ends_with_nl_app in Hend.
      rewrite bool_decide_false in Hend; [done|].
      cbn [writelines]. rewrite are_lines_cons in Hrest.
      apply andb_true_iff in Hrest as [Hl' _].
      destruct l'; [done|]. by rewrite append_cons.
Qed.

Lemma find_line_split (p : string) (pre : list string) (old : string) (post : list string) :
  Forall (fun l => startswith p l = false) pre ->
  startswith p old = true ->
  find_line p (pre ++ old :: post) = Some (length pre).
Proof.
  intros Hpre Hold. induction Hpre as [|l pre Hl _ IH].
  - cbn. by rewrite Hold.
  - cbn [app find_line length]. by rewrite Hl, IH.
Qed.

Lemma find_line_none (p : string) (ls : list string) :
  Forall (fun l => startswith p l = false) ls -> find_line p ls = None.
Proof.
  intros H. induction H as [|l ls Hl _ IH]; [done|].
  cbn [find_line]. by rewrite Hl, IH.
Qed.

Lemma find_line_spec (p : string) (ls : list string) :
  match find_line p ls with
  | Some i =>
      exists pre old post,
        ls = pre ++ old :: post /\ length pre = i /\
        Forall (fun l => startswith p l = false) pre /\ startswith p old = true
  | None => Forall (fun l => startswith p l = false) ls
  end.
Proof.
  induction ls as [|l ls IH]; [by constructor|].
  cbn [find_line]. destruct (startswith p l) eqn:Hl.
  - by exists [], l, ls.
  - destruct (find_line p ls) as [i|]; cbn.
    + destruct IH as (pre & old & post & -> & <- & Hpre & Hold).
      exists (l :: pre), old, post. repeat split; [|done]. by constructor.
    + by constructor.
Qed.

Lemma insert_middle (pre : list string) (old new : string) (post : list string) :
  <[length pre := new]> (pre ++ old :: post) = pre ++ new :: post.
Proof.
  rewrite insert_app_r_alt by done. by rewrite Nat.sub_diag.
Qed.

End TextFacts.

(** ** The store on posix and on nt *)

Section StoreFacts.
Import Text Posix.

Lemma rstrip_app (s t : string) :
  rstrip (s +:+ t) =
  match rstrip t with
  | EmptyString => rstrip s
  | String a t' => s +:+ String a t'
  end.
Proof.
  induction s as [|c s IH].
  - rewrite append_nil_l. by destruct (rstrip t).
  - rewrite append_cons. cbn [rstrip]. rewrite IH.
    destruct (rstrip t) as [|a t']; [done|].
    rewrite append_cons. by destruct s.
Qed.

Lemma lstrip_app (s t : string) :
  s <> "" -> lstrip s = s -> lstrip (s +:+ t) = s +:+ t.
Proof.
  destruct s as [|c s]; [done|]. intros _.
  rewrite append_cons. cbn [lstrip]. destruct (is_space c) eqn:Hc; [|done].
  intros H. exfalso.
  assert (forall u, String.length (lstrip u) <= String.length u)%nat as Hlen.
  { clear. induction u as [|a u IH]; [done|]. cbn [lstrip].
    destruct (is_space a); cbn [String.length]; lia. }
  specialize (Hlen s). rewrite H in Hlen. cbn [String.length] in Hlen. lia.
Qed.

Lemma split_plain (sep : ascii) (s : string) :
  contains sep s = false -> split sep s = [s].
Proof.
  induction s as [|c s IH]; [done|].
  cbn [contains split]. destruct (decide (c = sep)); [done|].
  intros H. by rewrite (IH H).
Qed.

Lemma split_app (sep : ascii) (k v : string) :
  contains sep k = false ->
  split sep (k +:+ String sep v) = k :: split sep v.
Proof.
  induction k as [|c k IH].
  - intros _. rewrite append_nil_l. cbn [split]. by rewrite decide_True.
  - cbn [contains]. rewrite append_cons. cbn [split].
    destruct (decide (c = sep)); [done|]. intros H. by rewrite (IH H).
Qed.

Lemma storable_key_legal (k v : string) :
  storable_key k = true -> storable_value v = true ->
  legal_assignment k v = true /\ plain k = true /\ plain v = true.
Proof.
  unfold storable_key, storable_value, legal_assignment.
  rewrite !andb_true_iff. intros [[[[-> ->] ->] ->] _] [[[_ ->] ->] _]. done.
Qed.

(** The line written for a storable key and value is read back as that
    key with that value. *)
Lemma load_export_line (d : gmap string string) (k v : string) :
  storable_key k = true -> storable_value v = true ->
  load_line d (export_line k v) = Ok (<[k := v]> d).
Proof.
  unfold storable_key, storable_value. rewrite !andb_true_iff.
  intros [[[[Hne Hkeq] _] _] Hkl] [[[Hveq _] _] Hvr].
  apply negb_true_iff, bool_decide_eq_false in Hne.
  apply negb_true_iff in Hkeq, Hveq.
  apply bool_decide_eq_true in Hkl, Hvr.
  unfold load_line, export_line.
  change (startswith "export " ("export " +:+ k +:+ "=" +:+ v +:+ NL)) with true.
  change (drop 7 ("export " +:+ k +:+ "=" +:+ v +:+ NL)) with (k +:+ "=" +:+ v +:+ NL).
  cbv iota. unfold strip.
  rewrite (lstrip_app k _ Hne Hkl).
  change ("=" +:+ v +:+ NL) with (String "=" (v +:+ NL)).
  assert (rstrip (String "=" (v +:+ NL)) = String "=" v) as Hr.
  { cbn [rstrip]. rewrite rstrip_app.
    change (rstrip NL) with "". rewrite Hvr. by destruct v. }
  rewrite rstrip_app, Hr.
  rewrite split_app by done. by rewrite split_plain.
Qed.

Lemma load_lines_cons (d : gmap string string) (l : string) (ls : list string) :
  load_lines d (l :: ls) = d' ← load_line d l; load_lines d' ls.
Proof. done. Qed.

Lemma load_lines_app (d : gmap string string) (l1 l2 : list string) :
  load_lines d (l1 ++ l2) = d' ← load_lines d l1; load_lines d' l2.
Proof.
  revert d. induction l1 as [|l l1 IH]; intros d; [done|].
  cbn [app load_lines]. destruct (load_line d l) as [d'|e]; [|done].
  apply IH.
Qed.

Lemma load_line_loads (d : gmap string string) (l : string) :
  loads l = true -> exists d', load_line d l = Ok d'.
Proof.
  unfold loads, load_line. destruct (startswith "export " l); [|by eexists].
  destruct (split "=" (strip (drop 7 l))) as [|a [|b [|c r]]]; try done.
  by eexists.
Qed.

Lemma load_lines_loads (d : gmap string string) (ls : list string) :
  forallb loads ls = true -> exists d', load_lines d ls = Ok d'.
Proof.
  revert d. induction ls as [|l ls IH]; intros d; [by eexists|].
  cbn [forallb load_lines]. intros H. apply andb_true_iff in H as [Hl Hls].
  destruct (load_line_loads d l Hl) as [d' ->]. apply (IH _ Hls).
Qed.

Lemma load_line_other (d : gmap string string) (k l : string) :
  loads l = true -> defines k l = false ->
  exists d', load_line d l = Ok d' /\ d' !! k = d !! k.
Proof.
  unfold loads, defines, load_line.
  destruct (startswith "export " l); [|by eexists].
  destruct (split "=" (strip (drop 7 l))) as [|a [|b [|c r]]]; try done.
  intros _ H. cbn [andb] in H. apply bool_decide_eq_false in H.
  eexists. split; [done|]. by rewrite lookup_insert_ne.
Qed.

Lemma load_lines_other (d : gmap string string) (k : string) (ls : list string) :
  forallb loads ls = true ->
  forallb (fun l => negb (defines k l)) ls = true ->
  exists d', load_lines d ls = Ok d' /\ d' !! k = d !! k.
Proof.
  revert d. induction ls as [|l ls IH]; intros d; [by eexists|].
  cbn [forallb load_lines]. intros H1 H2.
  apply andb_true_iff in H1 as [Hl Hls]. apply andb_true_iff in H2 as [Hn Hns].
  apply negb_true_iff in Hn.
  destruct (load_line_other d k l Hl Hn) as (d' & -> & Hd').
  destruct (IH d' Hls Hns) as (d'' & Hd'' & Heq).
  exists d''. split; [done|]. by rewrite Heq.
Qed.

Lemma settled_split (p k : string) (pre : list string) (old : string)
  (post : list string) :
  Forall (fun l => startswith p l = false) pre ->
  startswith p old = true ->
  settled p k (pre ++ old :: post) = forallb (fun l => negb (defines k l)) post.
Proof.
  intros Hpre Hold. induction Hpre as [|l pre Hl _ IH].
  - cbn. by rewrite Hold.
  - cbn [app settled]. by rewrite Hl.
Qed.

(** The lists [set_env] writes are lists of lines. *)
Lemma new_lines_are_lines (path : path_state) (k v : string) :
  plain k = true -> plain v = true ->
  (forall raw, path = File raw ->
     find_line ("export " +:+ k +:+ "=") (lines_of raw) = None ->
     terminated raw = true) ->
  are_lines (new_lines path k v) = true.
Proof.
  intros Hk Hv Hterm.
  pose proof (export_line_is_line k v Hk Hv) as Hline.
  pose proof (export_line_ends_with_nl k v) as Hend.
  destruct path as [| |raw]; cbn [new_lines]; [done..|].
  pose proof (find_line_spec ("export " +:+ k +:+ "=") (lines_of raw)) as Hspec.
  pose proof (readlines_are_lines (universal_newlines raw)) as Hwf.
  fold (lines_of raw) in Hwf.
  destruct (find_line _ (lines_of raw)) as [i|] eqn:Hfind.
  - destruct Hspec as (pre & old & post & Hsplit & <- & Hpre & Hold).
    rewrite Hsplit in *. rewrite insert_middle.
    rewrite are_lines_app in Hwf.
    apply andb_true_iff in Hwf as [Hwf1 Hwf2].
    rewrite are_lines_app, Hwf1. cbn [andb].
    rewrite are_lines_cons in Hwf2. rewrite are_lines_cons, Hline, Hend.
    apply andb_true_iff in Hwf2 as [_ Hwf2]. cbn [andb].
    destruct post as [|l post]; [done|].
    rewrite bool_decide_false in Hwf2 by done. rewrite bool_decide_false by done.
    cbn [orb] in *. by apply andb_true_iff in Hwf2 as [_ ->].
  - apply are_lines_snoc; [done| |].
    + unfold lines_of. rewrite writelines_readlines.
      specialize (Hterm raw eq_refl Hfind). unfold terminated in Hterm.
      apply orb_true_iff in Hterm as [Hterm|Hterm]; [|by right].
      left. by apply bool_decide_eq_true in Hterm.
    + unfold full_line. by rewrite Hline, Hend.
Qed.

(** The lists [set_env] writes have no carriage return, for a key and
    a value without one. *)
Lemma new_lines_no_cr (path : path_state) (k v : string) :
  plain k = true -> plain v = true ->
  existsb (contains cr) (new_lines path k v) = false.
Proof.
  intros Hk Hv. pose proof (export_line_no_cr k v Hk Hv) as Hnew.
  destruct path as [| |raw]; cbn [new_lines existsb]; [by rewrite Hnew..|].
  pose proof (find_line_spec ("export " +:+ k +:+ "=") (lines_of raw)) as Hspec.
  pose proof (lines_of_no_cr raw) as Hold.
  destruct (find_line _ (lines_of raw)) as [i|].
  - destruct Hspec as (pre & old & post & Hsplit & <- & _ & _).
    rewrite Hsplit in *. rewrite insert_middle.
    rewrite existsb_app in *. cbn [existsb] in *.
    apply orb_false_iff in Hold as [-> Hold].
    apply orb_false_iff in Hold as [_ ->]. by rewrite Hnew.
  - rewrite existsb_app, Hold. cbn [existsb]. by rewrite Hnew.
Qed.

(** What is read back from the file [set_env] wrote is the list it
    wrote. *)
Lemma lines_of_new_lines (path : path_state) (k v : string) :
  plain k = true -> plain v = true ->
  (forall raw, path = File raw ->
     find_line ("export " +:+ k +:+ "=") (lines_of raw) = None ->
     terminated raw = true) ->
  lines_of (writelines (new_lines path k v)) = new_lines path k v.
Proof.
  intros Hk Hv Hterm. apply lines_of_writelines.
  - by apply new_lines_are_lines.
  - by apply new_lines_no_cr.
Qed.

(** What start-up reads from the lines [set_env] wrote. *)
Lemma load_new_lines (path : path_state) (k v : string) :
  storable_key k = true -> storable_value v = true ->
  (forall raw, path = File raw ->
     forallb loads (lines_of raw) = true /\
     settled ("export " +:+ k +:+ "=") k (lines_of raw) = true) ->
  exists d, load_lines ∅ (new_lines path k v) = Ok d /\ d !! k = Some v.
Proof.
  intros Hk Hv Hfile.
  assert (exists d, load_lines ∅ [export_line k v] = Ok d /\ d !! k = Some v) as Hone.
  { rewrite load_lines_cons, (load_export_line _ _ _ Hk Hv), bind_ok.
    exists (<[k := v]> ∅). split; [done|]. by rewrite lookup_insert_eq. }
  destruct path as [| |raw]; cbn [new_lines]; [done..|].
  destruct (Hfile raw eq_refl) as [Hloads Hsettled].
  pose proof (find_line_spec ("export " +:+ k +:+ "=") (lines_of raw)) as Hspec.
  destruct (find_line _ (lines_of raw)) as [i|].
  - destruct Hspec as (pre & old & post & Hsplit & <- & Hpre & Hold).
    rewrite Hsplit in *. rewrite insert_middle.
    rewrite (settled_split _ _ _ _ _ Hpre Hold) in Hsettled.
    rewrite forallb_app in Hloads. cbn [forallb] in Hloads.
    apply andb_true_iff in Hloads as [Hl1 Hl2].
    apply andb_true_iff in Hl2 as [_ Hl2].
    destruct (load_lines_loads ∅ pre Hl1) as [d1 Hd1].
    rewrite load_lines_app, Hd1, bind_ok, load_lines_cons.
    rewrite (load_export_line _ _ _ Hk Hv), bind_ok.
    destruct (load_lines_other (<[k := v]> d1) k post Hl2 Hsettled)
      as (d2 & Hd2 & Heq).
    exists d2. split; [done|]. by rewrite Heq, lookup_insert_eq.
  - destruct (load_lines_loads ∅ (lines_of raw) Hloads) as [d1 Hd1].
    rewrite load_lines_app, Hd1, bind_ok, load_lines_cons.
    rewrite (load_export_line _ _ _ Hk Hv), bind_ok.
    exists (<[k := v]> d1). split; [done|]. by rewrite lookup_insert_eq.
Qed.

(** C5, amended. [set_env] on posix, for a key and a value without
    line break that the interpreter accepts as an assignment, where the
    directory of the file exists: the call returns, the environment holds
    the value, and the file is rewritten. With no file before, the new
    file is the one line [export k=v]. With a file, the first line that
    starts with [export k=] gives way to that line and every other line
    stays where it was; with no such line, and a text that is empty or
    ends in a line terminator, the old lines are followed by the one new
    line. *)
Theorem set_env_rewrites_file (env : gmap string string) (path : path_state)
  (k v : string) :
  legal_assignment k v = true -> plain k = true -> plain v = true ->
  path <> NoDirectory ->
  exists raw',
    set_env {| environ := env; env_path := path |} k v
      = Ok {| environ := <[k := v]> env; env_path := File raw' |} /\
    (path = NoFile -> raw' = export_line k v) /\
    (forall raw pre old post,
        path = File raw ->
        lines_of raw = pre ++ old :: post ->
        Forall (fun l => startswith ("export " +:+ k +:+ "=") l = false) pre ->
        startswith ("export " +:+ k +:+ "=") old = true ->
        lines_of raw' = pre ++ export_line k v :: post) /\
    (forall raw,
        path = File raw ->
        Forall (fun l => startswith ("export " +:+ k +:+ "=") l = false)
          (lines_of raw) ->
        terminated raw = true ->
        lines_of raw' = lines_of raw ++ [export_line k v]).
Proof.
  intros Hlegal Hk Hv Hdir.
  exists (writelines (new_lines path k v)).
  split; [|split; [|split]].
  - unfold set_env, environ_setitem. cbn [environ env_path].
    rewrite Hlegal, bind_ok. by destruct path.
  - intros ->. cbn [new_lines writelines]. by rewrite append_nil_r.
  - intros raw pre old post -> Hsplit Hpre Hold.
    rewrite lines_of_new_lines; [|done..|].
    + cbn [new_lines]. rewrite Hsplit, (find_line_split _ _ _ _ Hpre Hold).
      apply insert_middle.
    + intros raw' [= <-]. by rewrite Hsplit, (find_line_split _ _ _ _ Hpre Hold).
  - intros raw -> Hnone Hterm.
    rewrite lines_of_new_lines; [|done..|].
    + cbn [new_lines]. by rewrite (find_line_none _ _ Hnone).
    + by intros raw' [= <-].
Qed.

Lemma set_env_rewrites_file_witness :
  exists raw',
    set_env {| environ := ∅; env_path := File two_settings |} "QT_SCALE" "2"
      = Ok {| environ := <["QT_SCALE" := "2"]> ∅; env_path := File raw' |} /\
    lines_of raw' = ["export QT_API=pyqt5" +:+ NL; "export QT_SCALE=2" +:+ NL].
Proof.
  destruct (set_env_rewrites_file ∅ (File two_settings) "QT_SCALE" "2")
    as (raw' & Hset & _ & Hreplace & _).
  - vm_compute. reflexivity.
  - vm_compute. reflexivity.
  - vm_compute. reflexivity.
  - discriminate.
  - exists raw'. split; [exact Hset|].
    apply (Hreplace two_settings ["export QT_API=pyqt5" +:+ NL]
             ("export QT_SCALE=1.5" +:+ NL) []).
    + reflexivity.
    + vm_compute. reflexivity.
    + repeat constructor.
    + vm_compute. reflexivity.
Defined.

(** C5 as stated fails on a file whose last line has no newline: no line
    starts with [export QT_SCALE=], yet the old line is not kept and no
    line is added; the rewritten file has the single line
    [export QT_API=pyqt5export QT_SCALE=2]. *)
Lemma set_env_joins_unterminated_line :
  find_line "export QT_SCALE=" (lines_of unterminated) = None /\
  env_path <$> set_env {| environ := ∅; env_path := File unterminated |} "QT_SCALE" "2"
    = Ok (File ("export QT_API=pyqt5export QT_SCALE=2" +:+ NL)) /\
  lines_of ("export QT_API=pyqt5export QT_SCALE=2" +:+ NL)
    = ["export QT_API=pyqt5export QT_SCALE=2" +:+ NL] /\
  lines_of ("export QT_API=pyqt5export QT_SCALE=2" +:+ NL)
    <> lines_of unterminated ++ [export_line "QT_SCALE" "2"].
Proof. repeat split; vm_compute; (reflexivity || discriminate). Qed.

Lemma redefined_keys_in_environ (p : Nt.process) (k : string) :
  k ∈ Nt.python_redefined_keys p -> is_Some (Nt.os_environ p !! k).
Proof.
  unfold Nt.python_redefined_keys. rewrite elem_of_dom.
  intros [v Hv]. apply map_lookup_filter_Some in Hv as [Hv _]. by exists v.
Qed.

(** The import leaves every variable alone that is not one of the four
    it writes. *)
Lemma module_body_frame (h : Later.host)
    (get : gmap string string -> string -> string -> outcome string)
    (env env' : gmap string string) (k : string) :
  Later.module_body h get env = Ok env' ->
  k ∉ Later.written ->
  env' !! k = env !! k.
Proof.
  unfold Later.module_body, Later.written. intros Hbody Hk.
  repeat match type of Hbody with
         | (?x ≫= _) = Ok _ => destruct x; [rewrite bind_ok in Hbody|done]
         | match ?x with _ => _ end = Ok _ => destruct x; [|done]
         end.
  injection Hbody as <-.
  rewrite !lookup_insert_ne; [done|intros <-; apply Hk; set_solver..].
Qed.

(** C6, amended. On posix, where the directory of the file exists, for
    a storable key that is not one of the four variables the import
    writes, a storable value and a file that is absent, or is empty or
    terminated, loads without error and does not bind the key again below
    its first [export k=] line: [set_env] returns, the start-up of the
    store in a later process reads the value back, and [get_env] in a
    later process whose environment lacks the key returns the value once
    the import of the module is done; it is not reached when the import
    raises. On nt, for an assignment the interpreter accepts: [set_env]
    returns, and once the [setx] command it spawned has completed,
    [get_env] in a later process whose environment lacks the key returns
    the value once the import is done. *)
Theorem set_env_survives_restart :
  (forall (h : Later.host) (env env' : gmap string string) (path : path_state)
          (k v d : string),
     storable_key k = true -> storable_value v = true ->
     path <> NoDirectory ->
     (forall raw, path = File raw ->
        terminated raw = true /\
        forallb loads (lines_of raw) = true /\
        settled ("export " +:+ k +:+ "=") k (lines_of raw) = true) ->
     env' !! k = None ->
     k ∉ Later.written ->
     exists w',
       Posix.set_env {| environ := env; env_path := path |} k v = Ok w' /\
       (exists orig, Posix.orignal_environ (env_path w') = Ok orig /\
                     orig !! k = Some v) /\
       Later.posix_get_env h (env_path w') env' k (Some d)
         = (fun _ => Some v) <$> Later.posix_import h (env_path w') env')
  /\
  (forall (h : Later.host) (p p' : Nt.process) (reg : Nt.registry) (k v d : string),
     Nt.legal_assignment k v = true ->
     Nt.os_environ p' !! k = None ->
     exists p1 c,
       Nt.set_env p k v = Ok (p1, c) /\
       Later.nt_get_env h p' (Nt.completed c reg) k (Some d)
         = (fun _ => Some v) <$> Later.nt_import h p' (Nt.completed c reg)).
Proof.
  split.
  - intros h env env' path k v d Hk Hv Hdir Hfile Hfresh Hwritten.
    destruct (storable_key_legal k v Hk Hv) as (Hlegal & Hpk & Hpv).
    exists {| environ := <[k := v]> env;
              env_path := File (writelines (new_lines path k v)) |}.
    split.
    { unfold Posix.set_env, environ_setitem. cbn [environ env_path].
      rewrite Hlegal, bind_ok. by destruct path. }
    cbn [env_path].
    assert (exists orig,
              Posix.orignal_environ (File (writelines (new_lines path k v))) = Ok orig
              /\ orig !! k = Some v) as (orig & Horig & Hv0).
    { cbn [orignal_environ]. rewrite lines_of_new_lines; [|done..|].
      - apply (load_new_lines path k v Hk Hv).
        intros raw Hraw. by destruct (Hfile raw Hraw) as (_ & ? & ?).
      - intros raw Hraw _. by destruct (Hfile raw Hraw) as (? & _). }
    split; [by exists orig|].
    unfold Later.posix_get_env, Later.posix_import. rewrite Horig, !bind_ok.
    destruct (Later.module_body h (Later.posix_lookup orig) env') as [env''|e] eqn:Hbody;
      [|done].
    rewrite !bind_ok. cbn [fst snd]. rewrite fmap_ok. f_equal.
    unfold Posix.get_env.
    by rewrite (module_body_frame _ _ _ _ k Hbody Hwritten), Hfresh, Hv0.
  - intros h p p' reg k v d Hlegal Hfresh.
    unfold Nt.set_env. rewrite Hlegal. do 2 eexists. split; [done|].
    unfold Later.nt_get_env.
    destruct (Later.nt_import h p' _) as [[keys p'']|e] eqn:Himport; [|done].
    rewrite bind_ok, fmap_ok. cbn [fst snd].
    assert (keys = Nt.python_redefined_keys p') as ->.
    { unfold Later.nt_import in Himport.
      destruct (Later.dpi_aware h); [rewrite bind_ok in Himport|done].
      destruct (Later.module_body _ _ _); [rewrite bind_ok in Himport|done].
      by injection Himport as <- _. }
    unfold Nt.get_env_loaded. rewrite decide_False.
    + unfold Nt.QueryValueEx, Nt.completed. cbn [Nt.HKCU_Environment].
      by rewrite lookup_insert_eq.
    + intros Hin. apply redefined_keys_in_environ in Hin as [? Hin]. congruence.
Qed.

Lemma set_env_survives_restart_witness :
  (exists w',
     Posix.set_env {| environ := ∅; env_path := File Later.one_setting |}
       "QT_FONT" "Noto Sans" = Ok w' /\
     Later.posix_get_env Later.plain_host (env_path w') ∅ "QT_FONT" (Some "default")
       = Ok (Some "Noto Sans")) /\
  (exists p1 c,
     Nt.set_env Nt.bare_process "QT_FONT" "Noto Sans" = Ok (p1, c) /\
     Later.nt_get_env Later.plain_host Nt.bare_process
       (Nt.completed c Nt.empty_registry) "QT_FONT" (Some "default")
       = Ok (Some "Noto Sans")).
Proof.
  split.
  - destruct (proj1 set_env_survives_restart Later.plain_host ∅ ∅
                (File Later.one_setting) "QT_FONT" "Noto Sans" "default")
      as (w' & Hset & _ & Hget).
    + vm_compute. reflexivity.
    + vm_compute. reflexivity.
    + discriminate.
    + intros raw [= <-]. repeat split; vm_compute; reflexivity.
    + reflexivity.
    + by_evaluation.
    + exists w'. split; [exact Hset|]. rewrite Hget.
      vm_compute in Hset. injection Hset as <-. vm_compute. reflexivity.
  - destruct (proj2 set_env_survives_restart Later.plain_host
                Nt.bare_process Nt.bare_process Nt.empty_registry
                "QT_FONT" "Noto Sans" "default")
      as (p1 & c & Hset & Hget).
    + vm_compute. reflexivity.
    + reflexivity.
    + exists p1, c. split; [exact Hset|]. rewrite Hget.
      vm_compute in Hset. injection Hset as <- <-. vm_compute. reflexivity.
Defined.

(** C6 as stated fails. A value that ends in a blank comes back without
    it; a value with [=] makes the next start-up raise; where the
    directory is missing [set_env] itself raises; on nt, before [setx]
    has completed, the next process gets the default; and for [QT_API]
    the next process on posix reads what its own import has written over
    it, [pyqt5] for a stored [auto]. *)
Lemma set_env_restart_loses_value :
  (w' ← Posix.set_env no_store "QT_FONT" "Noto Sans ";
   Later.posix_get_env Later.plain_host (env_path w') ∅ "QT_FONT" (Some "default"))
  = Ok (Some "Noto Sans")
  /\
  (w' ← Posix.set_env no_store "QT_FONT" "a=b";
   Later.posix_get_env Later.plain_host (env_path w') ∅ "QT_FONT" (Some "default"))
  = Raise ValueError
  /\
  (w' ← Posix.set_env {| environ := ∅; env_path := NoDirectory |} "QT_FONT" "Noto Sans";
   Later.posix_get_env Later.plain_host (env_path w') ∅ "QT_FONT" (Some "default"))
  = Raise FileNotFoundError
  /\
  (Nt.set_env Nt.bare_process "QT_FONT" "Noto Sans"
     ≫= fun _ =>
   Later.nt_get_env Later.plain_host Nt.bare_process Nt.empty_registry
     "QT_FONT" (Some "default"))
  = Ok (Some "default")
  /\
  (w' ← Posix.set_env no_store "QT_API" "auto";
   Later.posix_get_env Later.plain_host (env_path w') ∅ "QT_API" (Some "default"))
  = Ok (Some "pyqt5").
Proof. repeat split; vm_compute; reflexivity. Qed.

End StoreFacts.

(** ** Resolution *)

Section ResolverFacts.
Import Text Resolver.

(** Evaluate [lower] on the literals of the goal. *)
Ltac eval_lower :=
  repeat match goal with
         | |- context [lower ?s] =>
             let x := eval vm_compute in (lower s) in change (lower s) with x
         end.

Lemma lower_char_not_P (c : ascii) : lower_char c <> "P"%char.
Proof. destruct c as [[] [] [] [] [] [] [] []]; vm_compute; discriminate. Qed.

(** No lower-cased text is one of the display names. *)
Lemma lower_not_module (s : string) : lower s ∉ modules.
Proof.
  intros H. unfold modules in H. cbn in H.
  destruct s as [|c s]; cbn [lower] in H.
  - repeat (apply elem_of_cons in H as [H|H]; [discriminate H|]).
    by apply elem_of_nil in H.
  - pose proof (lower_char_not_P c) as Hc.
    repeat (apply elem_of_cons in H as [H|H]; [by injection H|]).
    by apply elem_of_nil in H.
Qed.

Lemma stage_rejects (py : interpreter) (names : list string) (m : string)
  (next : outcome string) (st : outcome string * list event) :
  (stage py names m next st).1 = Raise PythonQtValueError ->
  next <> Raise PythonQtValueError ->
  st.1 = Raise PythonQtValueError.
Proof.
  destruct st as [[api|e] tr]; unfold stage; [|done].
  case_decide; [|done]. destruct (try_body py m); cbn; congruence.
Qed.

(** The imports never raise the invalid-selection error. *)
Lemma import_chain_never_rejects (py : interpreter) (api : string) :
  (import_chain py api).1 <> Raise PythonQtValueError.
Proof.
  unfold import_chain. intros H.
  do 4 (apply stage_rejects in H; [|discriminate]).
  discriminate H.
Qed.

(** The binding chosen before the imports is the one [auto_select] left. *)
Lemma resolve_initial_api (py : interpreter) (r a : string) (tr0 : list event)
  (res : resolution) (tr : list event) :
  auto_select py (if decide (argv0_name py = "spyder") then "pyqt5" else lower r)
    = (Ok a, tr0) ->
  resolve py r = (Ok res, tr) -> initial_api res = a.
Proof.
  unfold resolve. intros ->. case_decide; [done|].
  destruct (import_chain py a) as [[api'|e] tr']; [|done].
  by intros [= <- _].
Qed.

(** With nothing loaded, the first probe alone decides the [auto] branch. *)
Lemma auto_depends_on_first_probe (py : interpreter) :
  (forall m, m ∈ modules -> m ∉ sys_modules py) ->
  auto_select py "auto" =
    (if find_spec py "PyQt5" then Ok "pyqt5" else Raise QtBindingsNotFoundError,
     [FindSpec "PyQt5"]).
Proof.
  intros Hnone. unfold auto_select.
  rewrite decide_True by done.
  change modules with ["PyQt5"; "PySide2"; "PyQt6"; "PySide6"] in *.
  cbn [first_loaded first_importable].
  rewrite !decide_False by (apply Hnone; set_solver).
  by destruct (find_spec py "PyQt5").
Qed.

(** C2, on the code. Nothing is loaded, PyQt5 is not installed and
    PySide2 is: the [auto] branch raises the bindings-not-found error
    after the one probe for PyQt5 and never looks at PySide2. *)
Theorem auto_stops_at_first_candidate :
  find_spec only_pyside2 "PySide2" = true /\
  resolve only_pyside2 "auto" = (Raise QtBindingsNotFoundError, [FindSpec "PyQt5"]).
Proof. split; vm_compute; reflexivity. Qed.

(** C3, amended. Unless the script is named [spyder], a requested name
    whose lower-case form is neither [auto] nor one of the four keys
    raises the invalid-selection error with no probe and no import
    before it. *)
Theorem unknown_name_is_rejected (py : interpreter) (r : string) :
  argv0_name py <> "spyder" ->
  lower r ∉ ("auto" :: API_NAMES.*1) ->
  resolve py r = (Raise PythonQtValueError, []).
Proof.
  intros Hname Hr. unfold resolve, auto_select.
  rewrite (decide_False (P := argv0_name py = "spyder")) by done.
  rewrite (decide_False (P := lower r = "auto")) by set_solver.
  rewrite decide_True; [done|].
  intros Hin. apply elem_of_app in Hin as [Hin|Hin].
  - apply Hr. by apply elem_of_cons; right.
  - by apply (lower_not_module r).
Qed.

Lemma unknown_name_is_rejected_witness :
  resolve (full_host "python" ∅) "made_up_binding" = (Raise PythonQtValueError, []).
Proof.
  apply (unknown_name_is_rejected (full_host "python" ∅) "made_up_binding").
  - discriminate.
  - apply (bool_decide_unpack _). vm_compute. exact I.
Defined.

(** C3 as stated fails: under the script name [spyder] the made-up name
    is not rejected, PyQt5 is imported instead. *)
Lemma unknown_name_accepted_under_spyder :
  (lower "made_up_binding" ∉ "auto" :: API_NAMES.*1) /\
  resolve (full_host "spyder" ∅) "made_up_binding" =
    (Ok {| API := "pyqt5"; initial_api := "pyqt5"; API_NAME := Some "PyQt5";
           fallback_warning := false |},
     [ImportOf "PyQt5"]).
Proof.
  split; [|vm_compute; reflexivity].
  apply (bool_decide_unpack _). vm_compute. exact I.
Qed.

Lemma first_loaded_first (py : interpreter) (ms : list string) :
  (exists m, m ∈ ms /\ m ∈ sys_modules py) ->
  exists pre m post,
    ms = pre ++ m :: post /\
    Forall (fun m' => m' ∉ sys_modules py) pre /\
    m ∈ sys_modules py /\
    first_loaded py ms = Some (lower m).
Proof.
  induction ms as [|x ms IH]; intros (m0 & Hm0 & Hin0).
  - by apply elem_of_nil in Hm0.
  - cbn [first_loaded]. case_decide as Hx.
    + by exists [], x, ms.
    + apply elem_of_cons in Hm0 as [->|Hm0]; [done|].
      destruct IH as (pre & m & post & -> & Hpre & Hin & Hfirst); [by exists m0|].
      exists (x :: pre), m, post. by repeat split; [constructor|..].
Qed.

Lemma stage_no_probe (py : interpreter) (names : list string) (m : string)
  (next : outcome string) (st : outcome string * list event) (m' : string) :
  FindSpec m' ∉ st.2 -> FindSpec m' ∉ (stage py names m next st).2.
Proof.
  destruct st as [[api|e] tr]; cbn [stage snd]; [|done].
  intros Htr. case_decide; [|done].
  destruct (try_body py m); cbn [snd];
    rewrite elem_of_app, elem_of_cons, elem_of_nil; by intros [?|[?|?]].
Qed.

Lemma import_chain_no_probe (py : interpreter) (api : string) (m' : string) :
  FindSpec m' ∉ (import_chain py api).2.
Proof.
  unfold import_chain. repeat apply stage_no_probe. cbn. apply not_elem_of_nil.
Qed.

(** C4, amended. Unless the script is named [spyder]: when the request
    is [auto] and some candidate is in [sys.modules], the first loaded
    candidate in priority order is chosen without any probe, whatever is
    installed besides; it is the one recorded as the initial choice of
    every resolution that returns, and the resolved binding whenever its
    import succeeds. A candidate that is the only one loaded is that
    first one. *)
Theorem loaded_binding_wins (py : interpreter) (r : string) :
  argv0_name py <> "spyder" ->
  lower r = "auto" ->
  (exists m, m ∈ modules /\ m ∈ sys_modules py) ->
  exists m,
    m ∈ modules /\ m ∈ sys_modules py /\
    (exists pre post,
       modules = pre ++ m :: post /\
       Forall (fun m' => m' ∉ sys_modules py) pre) /\
    (forall m0, (forall m', m' ∈ modules -> m' ∈ sys_modules py -> m' = m0) -> m = m0) /\
    (forall o tr m', resolve py r = (o, tr) -> FindSpec m' ∉ tr) /\
    (forall res tr, resolve py r = (Ok res, tr) -> initial_api res = lower m) /\
    (try_body py m = Imported ->
     resolve py r =
       (Ok {| API := lower m; initial_api := lower m; API_NAME := Some m;
              fallback_warning := false |},
        [ImportOf m])).
Proof.
  intros Hname Hr Hloaded.
  destruct (first_loaded_first py modules Hloaded)
    as (pre & m & post & Hsplit & Hpre & Hin & Hfirst).
  assert (m ∈ modules) as Hm.
  { rewrite Hsplit, elem_of_app, elem_of_cons. by right; left. }
  assert (auto_select py (if decide (argv0_name py = "spyder") then "pyqt5" else lower r)
          = (Ok (lower m), [])) as Hauto.
  { rewrite decide_False by done. rewrite Hr. unfold auto_select.
    rewrite decide_True by done. by rewrite Hfirst. }
  exists m. split; [done|]. split; [done|].
  split; [by exists pre, post|]. split; [|split; [|split]].
  - intros m0 Hm0. by apply Hm0.
  - intros o tr m' Hres. unfold resolve in Hres. rewrite Hauto in Hres.
    case_decide; [by injection Hres as <- <-; apply not_elem_of_nil|].
    pose proof (import_chain_no_probe py (lower m) m') as Hchain.
    destruct (import_chain py (lower m)) as [[api|e] tr'];
      injection Hres as <- <-; exact Hchain.
  - intros res tr Hres. by apply (resolve_initial_api py r _ [] res tr).
  - intros Htry. unfold resolve. rewrite Hauto. clear Hauto Hfirst Hloaded Hsplit Hpre.
    change modules with ["PyQt5"; "PySide2"; "PyQt6"; "PySide6"] in Hm.
    repeat (apply elem_of_cons in Hm as [->|Hm];
            [eval_lower;
             unfold import_chain, stage, PYQT5_API, PYSIDE2_API, PYQT6_API, PYSIDE6_API;
             repeat first [rewrite decide_True by by_evaluation
                          |rewrite decide_False by by_evaluation
                          |rewrite Htry];
             reflexivity|]).
    by apply elem_of_nil in Hm.
Qed.

Lemma loaded_binding_wins_witness :
  exists m,
    m ∈ modules /\ m ∈ sys_modules (full_host "python" {["PySide2"; "PySide6"]}) /\
    (exists pre post,
       modules = pre ++ m :: post /\
       Forall (fun m' => m' ∉ sys_modules (full_host "python" {["PySide2"; "PySide6"]}))
         pre) /\
    resolve (full_host "python" {["PySide2"; "PySide6"]}) "Auto" =
      (Ok {| API := lower m; initial_api := lower m; API_NAME := Some m;
             fallback_warning := false |},
       [ImportOf m]).
Proof.
  destruct (loaded_binding_wins (full_host "python" {["PySide2"; "PySide6"]}) "Auto")
    as (m & Hm & Hin & Hfirst & _ & _ & _ & Hres).
  - discriminate.
  - reflexivity.
  - exists "PySide6". split; by_evaluation.
  - exists m. split; [exact Hm|]. split; [exact Hin|]. split; [exact Hfirst|].
    apply Hres. reflexivity.
Defined.

(** With PySide2 and PySide6 both loaded and everything installed, the
    request [auto] resolves to PySide2, the first of the two. *)
Lemma first_of_two_loaded :
  resolve (full_host "python" {["PySide2"; "PySide6"]}) "Auto" =
    (Ok {| API := "pyside2"; initial_api := "pyside2"; API_NAME := Some "PySide2";
           fallback_warning := false |},
     [ImportOf "PySide2"]).
Proof. vm_compute. reflexivity. Qed.

(** C4 as stated fails: under the script name [spyder], with PySide6
    loaded and the request [auto], PyQt5 is chosen and imported. *)
Lemma loaded_binding_ignored_under_spyder :
  "PySide6" ∈ sys_modules (full_host "spyder" {["PySide6"]}) /\
  ("PyQt5" ∉ sys_modules (full_host "spyder" {["PySide6"]})) /\
  resolve (full_host "spyder" {["PySide6"]}) "auto" =
    (Ok {| API := "pyqt5"; initial_api := "pyqt5"; API_NAME := Some "PyQt5";
           fallback_warning := false |},
     [ImportOf "PyQt5"]).
Proof.
  split; [|split]; [by_evaluation.. |].
  vm_compute. reflexivity.
Qed.

(** C10. Under the script name [spyder] the requested value plays no
    part: resolution goes as it does for the request [pyqt5] under any
    script name, and the invalid-selection error is never raised. *)
Theorem spyder_forces_pyqt5 (py : interpreter) (r name : string) :
  argv0_name py = "spyder" ->
  resolve py r = resolve (with_argv0 name py) "pyqt5" /\
  (resolve py r).1 <> Raise PythonQtValueError.
Proof.
  intros Hname.
  assert (resolve py r = resolve (with_argv0 name py) "pyqt5") as Heq.
  { unfold resolve. rewrite (decide_True (P := argv0_name py = "spyder")) by done.
    cbn [argv0_name with_argv0]. destruct (decide (name = "spyder")); reflexivity. }
  split; [done|]. clear Heq.
  unfold resolve. rewrite (decide_True (P := argv0_name py = "spyder")) by done.
  unfold auto_select.
  rewrite (decide_False (P := "pyqt5" = "auto")) by done.
  rewrite decide_False by by_evaluation.
  pose proof (import_chain_never_rejects py "pyqt5") as Hchain.
  destruct (import_chain py "pyqt5") as [[api|e] tr]; [done|].
  cbn in *. congruence.
Qed.

Lemma spyder_forces_pyqt5_witness :
  resolve (full_host "spyder" ∅) "pyside6" = resolve (full_host "python" ∅) "pyqt5".
Proof.
  apply (spyder_forces_pyqt5 (full_host "spyder" ∅) "pyside6" "python").
  reflexivity.
Defined.

End ResolverFacts.

(** ** Scaling *)

Section ScaleFacts.
Import Num Scale.

(** Induction over objects, the elements of tuples, lists and generator
    objects included. *)
Lemma value_nested_ind (P : value -> Prop) :
  (forall n, P (VInt n)) ->
  (forall b, P (VBool b)) ->
  (forall f, P (VFloat f)) ->
  (forall x y w h, P (VRect x y w h)) ->
  (forall elts, Forall P elts -> P (VTuple elts)) ->
  (forall elts, Forall P elts -> P (VList elts)) ->
  (forall pending, Forall P pending -> P (VGen pending)) ->
  (forall cls factors, P (VOther cls factors)) ->
  forall v, P v.
Proof.
  intros HInt HBool HFloat HRect HTuple HList HGen HOther.
  fix IH 1. intros [n|b|f|x y w h|elts|elts|pending|cls factors].
  - apply HInt.
  - apply HBool.
  - apply HFloat.
  - apply HRect.
  - apply HTuple. induction elts as [|e l IHl]; constructor; [apply IH|exact IHl].
  - apply HList. induction elts as [|e l IHl]; constructor; [apply IH|exact IHl].
  - apply HGen. induction pending as [|e l IHl]; constructor; [apply IH|exact IHl].
  - apply HOther.
Qed.

Lemma current_scale_cached (d : display) (st : runtime) (s : number) :
  QT_SCALE st = Some s -> current_scale d st = (Ok s, st).
Proof. unfold current_scale. by intros ->. Qed.

Lemma current_scale_ok (d : display) (st st' : runtime) (s : number) :
  current_scale d st = (Ok s, st') -> QT_SCALE st' = Some s.
Proof.
  unfold current_scale. destruct (QT_SCALE st) as [s0|] eqn:H.
  - by intros [= <- <-].
  - destruct (screens d); [done|]. by intros [= <- <-].
Qed.

Lemma current_scale_raise (d : display) (st st' : runtime) (e : exn) :
  current_scale d st = (Raise e, st') -> st' = st.
Proof.
  unfold current_scale. destruct (QT_SCALE st); [done|].
  destruct (screens d); [|done]. by intros [= _ <-].
Qed.

(** Reading the factor a second time changes nothing. *)
Lemma current_scale_idem (d : display) (st : runtime) :
  (current_scale d (current_scale d st).2).2 = (current_scale d st).2.
Proof.
  destruct (current_scale d st) as [[s|e] st'] eqn:H; cbn [snd].
  - by rewrite (current_scale_cached d st' s (current_scale_ok _ _ _ _ H)).
  - pose proof (current_scale_raise _ _ _ _ H) as ->. by rewrite H.
Qed.

(** The list branch of [scaled], through [scaled_each]. *)
Lemma scaled1_list (d : display) (elts : list value) (st : runtime) :
  scaled1 d (VList elts) st =
  match current_scale d st with
  | (Raise e, st') => (Raise e, st')
  | (Ok scale, st') =>
      if eq_int scale 1 then (Ok (VList elts), st')
      else match scaled_each d elts st' with
           | (r, st'') => (VList <$> r, st'')
           end
  end.
Proof.
  cbn [scaled1]. destruct (current_scale d st) as [[scale|e] st']; [|done].
  destruct (eq_int scale 1); [done|].
  match goal with
  | |- (let (_, _) := ?each elts st' in _) = _ =>
      assert (forall l s, each l s = scaled_each d l s) as Heach
  end.
  { induction l as [|elt l IHl]; intros s; [done|].
    cbn [scaled_each]. destruct (scaled1 d elt s) as [[v|e] s']; [|done].
    by rewrite IHl. }
  by rewrite Heach.
Qed.

(** Whatever the object, a call leaves the module state as reading the
    factor leaves it. *)
Lemma scaled1_state (d : display) (obj : value) (st : runtime) :
  (scaled1 d obj st).2 = (current_scale d st).2.
Proof.
  revert st. induction obj as [n|b|f|x y w h|elts IH|elts IH|pending IH|cls fs]
    using value_nested_ind; intros st;
    try (cbn [scaled1]; destruct (current_scale d st) as [[scale|e] st']; [|done];
         by destruct (eq_int scale 1)).
  rewrite scaled1_list.
  destruct (current_scale d st) as [[scale|e] st'] eqn:Hcs; [|done].
  destruct (eq_int scale 1); [done|].
  apply current_scale_ok in Hcs.
  assert ((scaled_each d elts st').2 = st') as Heach.
  { clear -IH Hcs. induction IH as [|elt l Helt _ IHl]; [done|].
    cbn [scaled_each]. specialize (Helt st').
    rewrite (current_scale_cached d st' scale Hcs) in Helt. cbn [snd] in Helt.
    destruct (scaled1 d elt st') as [[v|e] s']; cbn [snd] in Helt; subst s'; [|done].
    by destruct (scaled_each d l st'). }
  by destruct (scaled_each d elts st').
Qed.

Lemma scaled_each_state (d : display) (l : list value) (st : runtime) :
  (scaled_each d l st).2 = match l with [] => st | _ => (current_scale d st).2 end.
Proof.
  revert st. induction l as [|elt l IH]; intros st; [done|].
  cbn [scaled_each]. pose proof (scaled1_state d elt st) as Helt.
  destruct (scaled1 d elt st) as [[v|e] s']; cbn [snd] in Helt; subst s'; [|done].
  specialize (IH (current_scale d st).2). rewrite current_scale_idem in IH.
  destruct (scaled_each d l (current_scale d st).2) as [r s'']. cbn [snd] in *.
  by destruct l.
Qed.

Lemma scaled_state (d : display) (obj : value) (args : list value) (st : runtime) :
  (scaled d obj args st).2 = (current_scale d st).2.
Proof.
  unfold scaled. destruct args as [|a args]; [apply scaled1_state|].
  pose proof (current_scale_idem d st) as Hidem.
  destruct (current_scale d st) as [[s|e] st']; [|done].
  by rewrite scaled1_state.
Qed.

Lemma perform_state (d : display) (a : action) (st : runtime) :
  perform d a st = st \/ perform d a st = (current_scale d st).2.
Proof.
  destruct a as [obj args|g]; cbn [perform].
  - right. apply scaled_state.
  - destruct g; cbn [consume]; auto.
    rewrite scaled_each_state. destruct pending; auto.
Qed.

Lemma run_state (d : display) (acts : list action) (st : runtime) :
  run d acts st = st \/ run d acts st = (current_scale d st).2.
Proof.
  unfold run. revert st. induction acts as [|a acts IH]; intros st; [by left|].
  cbn [foldl]. destruct (perform_state d a st) as [->| ->]; [apply IH|].
  right. destruct (IH (current_scale d st).2) as [->| ->]; [done|].
  apply current_scale_idem.
Qed.

(** C9. From the state left by import under [auto]: however [scaled] is
    called and its generator objects walked, [logicalDotsPerInch] is
    asked at most once; with a screen present, the first call stores the
    quotient of its DPI by 192.0 with one query, and everything after
    leaves that state as it is. *)
Theorem dpi_queried_at_most_once :
  (forall (d : display) (acts : list action),
     (dpi_queries (run d acts fresh) <= 1)%nat) /\
  (forall (dpi : float) (others : list float) (obj : value) (args : list value)
          (acts : list action),
     let d := {| screens := dpi :: others |} in
     let st1 := (scaled d obj args fresh).2 in
     st1 = {| QT_SCALE := Some (Float (fdiv dpi f192)); dpi_queries := 1 |} /\
     run d acts st1 = st1).
Proof.
  split.
  - intros d acts. destruct (run_state d acts fresh) as [->| ->]; [cbn; lia|].
    unfold current_scale. cbn. destruct (screens d); cbn; lia.
  - intros dpi others obj args acts d st1.
    assert (st1 = {| QT_SCALE := Some (Float (fdiv dpi f192)); dpi_queries := 1 |})
      as Hst1 by apply scaled_state.
    split; [done|]. rewrite Hst1.
    by destruct (run_state d acts
                   {| QT_SCALE := Some (Float (fdiv dpi f192)); dpi_queries := 1 |})
      as [->| ->].
Qed.

(** C7. When the factor read is equal to 1, [scaled(obj)] returns [obj]
    itself, whatever it is. *)
Theorem scaled_identity_at_one (d : display) (st st' : runtime) (scale : number)
  (obj : value) :
  current_scale d st = (Ok scale, st') ->
  eq_int scale 1 = true ->
  scaled d obj [] st = (Ok obj, st').
Proof.
  intros Hcs Hone. unfold scaled.
  destruct obj; cbn [scaled1]; by rewrite Hcs, Hone.
Qed.

Lemma scaled_identity_at_one_witness :
  scaled {| screens := [nearest 192] |} (VRect 10 20 30 40) [] fresh =
    (Ok (VRect 10 20 30 40),
     {| QT_SCALE := Some (Float (nearest 1)); dpi_queries := 1 |}).
Proof.
  apply (scaled_identity_at_one _ _ _ (Float (nearest 1))).
  - vm_compute. reflexivity.
  - vm_compute. reflexivity.
Defined.

(** C1, on the code. With factor 2 the tuple (10, 20, 30, 40) does not
    come back as a tuple: the result is a generator object, which yields
    20, 40, 60, 80 once it is walked. The list [10, 20, 30, 40] does come
    back as a list. *)
Theorem scaled_tuple_is_generator (d : display) :
  scaled d (VTuple [VInt 10; VInt 20; VInt 30; VInt 40]) [] (cached (Int 2)) =
    (Ok (VGen [VInt 10; VInt 20; VInt 30; VInt 40]), cached (Int 2)) /\
  consume d (VGen [VInt 10; VInt 20; VInt 30; VInt 40]) (cached (Int 2)) =
    (Ok [VInt 20; VInt 40; VInt 60; VInt 80], cached (Int 2)) /\
  scaled d (VList [VInt 10; VInt 20; VInt 30; VInt 40]) [] (cached (Int 2)) =
    (Ok (VList [VInt 20; VInt 40; VInt 60; VInt 80]), cached (Int 2)).
Proof. repeat split; vm_compute; reflexivity. Qed.

Lemma float_of_int_raises (z : Z) (e : exn) :
  float_of_int z = Raise e -> e = OverflowError.
Proof. unfold float_of_int. destruct (nearest z); congruence. Qed.

Lemma mul_raises (a b : number) (e : exn) : mul a b = Raise e -> e = OverflowError.
Proof.
  destruct a as [x|f], b as [y|g]; cbn [mul]; try done.
  - destruct (float_of_int x) eqn:H; [done|].
    intros [= <-]. by apply (float_of_int_raises x).
  - destruct (float_of_int y) eqn:H; [done|].
    intros [= <-]. by apply (float_of_int_raises y).
Qed.

Lemma add_raises (a b : number) (e : exn) : add a b = Raise e -> e = OverflowError.
Proof.
  destruct a as [x|f], b as [y|g]; cbn [add]; try done.
  - destruct (float_of_int x) eqn:H; [done|].
    intros [= <-]. by apply (float_of_int_raises x).
  - destruct (float_of_int y) eqn:H; [done|].
    intros [= <-]. by apply (float_of_int_raises y).
Qed.

Lemma round_raises (x : number) (e : exn) :
  round x = Raise e -> e = OverflowError \/ e = ValueError.
Proof. destruct x as [z|[| | |]]; cbn [round]; intros [= <-]; auto. Qed.

(** The integer branch fails only by the errors of float arithmetic. *)
Lemma scale_int_raises (v : Z) (f : number) (e : exn) :
  scale_int v f = Raise e -> e = OverflowError \/ e = ValueError.
Proof.
  unfold scale_int.
  destruct (mul (Int v) f) as [p|e1] eqn:Hm.
  - rewrite bind_ok. destruct (add p (Float eps)) as [s|e2] eqn:Ha.
    + rewrite bind_ok. apply round_raises.
    + intros [= <-]. left. by apply (add_raises p (Float eps)).
  - intros [= <-]. left. by apply (mul_raises (Int v) f).
Qed.

(** C8, amended. For an integer [v] and a factor read that differs from
    1, [scaled(v)] is [int(round(v * f + eps))] computed on floats with
    ties rounded to even: an integer, or an [OverflowError] or
    [ValueError] out of that arithmetic. 10 gives 20 at factor 2 and 15
    at factor 1.5. The added [eps] lifts the tie of 1 at factor 0.5 to 1,
    while 5 at factor 0.5 gives 2. *)
Theorem scaled_int_formula (d : display) (st st' : runtime) (f : number) (v : Z) :
  current_scale d st = (Ok f, st') ->
  eq_int f 1 = false ->
  scaled d (VInt v) [] st =
    (VInt <$> (p ← mul (Int v) f; s ← add p (Float eps); round s), st') /\
  (forall e, (scaled d (VInt v) [] st).1 = Raise e ->
             e = OverflowError \/ e = ValueError) /\
  scaled d (VInt 10) [] (cached (Int 2)) = (Ok (VInt 20), cached (Int 2)) /\
  scaled d (VInt 10) [] (cached (Float one_and_half)) =
    (Ok (VInt 15), cached (Float one_and_half)) /\
  scaled d (VInt 1) [] (cached (Float half)) = (Ok (VInt 1), cached (Float half)) /\
  scaled d (VInt 5) [] (cached (Float half)) = (Ok (VInt 2), cached (Float half)).
Proof.
  intros Hcs Hne.
  assert (scaled d (VInt v) [] st = (VInt <$> scale_int v f, st')) as Heq.
  { unfold scaled. cbn [scaled1]. by rewrite Hcs, Hne. }
  split; [exact Heq|]. split.
  - intros e. rewrite Heq. cbn [fst].
    destruct (scale_int v f) as [z|e'] eqn:Hs; [done|].
    intros [= <-]. by apply (scale_int_raises v f).
  - repeat split; vm_compute; reflexivity.
Qed.

Lemma scaled_int_formula_witness :
  scaled standard_screen (VInt 3) [] fresh =
    (Ok (VInt 2), {| QT_SCALE := Some (Float half); dpi_queries := 1 |}).
Proof.
  destruct (scaled_int_formula standard_screen fresh
              {| QT_SCALE := Some (Float half); dpi_queries := 1 |}
              (Float half) 3) as [H _].
  - vm_compute. reflexivity.
  - vm_compute. reflexivity.
  - rewrite H. vm_compute. reflexivity.
Defined.

(** C8 as stated fails at the tie 2.5. On a screen at 96 dots per inch
    the factor read under [auto] is 0.5; 5 times 0.5 is the float whose
    double is 5, and [scaled(5)] is 2, not 3. *)
Lemma scaled_tie_not_lifted :
  mul (Int 5) (Float half) = Ok (Float (fmul (nearest 5) half)) /\
  fadd (fmul (nearest 5) half) (fmul (nearest 5) half) = nearest 5 /\
  scaled standard_screen (VInt 5) [] fresh =
    (Ok (VInt 2), {| QT_SCALE := Some (Float half); dpi_queries := 1 |}).
Proof. repeat split; vm_compute; reflexivity. Qed.

End ScaleFacts.

(** ** More on the store *)

Section StoreMore.
Import Text Posix.

Lemma startswith_app (p s : string) : startswith p (p +:+ s) = true.
Proof.
  induction p as [|c p IH]; [done|].
  rewrite append_cons. cbn [startswith]. by rewrite decide_True.
Qed.

Lemma startswith_split (p s : string) :
  startswith p s = true -> exists rest, s = p +:+ rest.
Proof.
  revert s. induction p as [|c p IH]; intros s.
  - intros _. by exists s.
  - destruct s as [|a s]; [done|]. cbn [startswith].
    destruct (decide (c = a)) as [->|]; [|done].
    intros H. destruct (IH s H) as [rest ->]. by exists rest.
Qed.

Lemma export_line_starts (k v : string) :
  startswith ("export " +:+ k +:+ "=") (export_line k v) = true.
Proof.
  unfold export_line.
  replace ("export " +:+ k +:+ "=" +:+ v +:+ NL)
    with (("export " +:+ k +:+ "=") +:+ v +:+ NL)
    by by rewrite !append_assoc.
  apply startswith_app.
Qed.

(** A second write for the same key finds the line of the first. *)
Lemma new_lines_twice (path : path_state) (k v1 v2 : string) :
  plain k = true -> plain v1 = true ->
  (forall raw, path = File raw -> terminated raw = true) ->
  new_lines (File (writelines (new_lines path k v1))) k v2 = new_lines path k v2.
Proof.
  intros Hk Hv1 Hterm.
  pose proof (export_line_starts k v1) as Hstart.
  assert (lines_of (writelines (new_lines path k v1)) = new_lines path k v1) as Hback.
  { apply lines_of_new_lines; [done..|]. intros raw Hraw _. by apply Hterm. }
  cbn [new_lines]. rewrite Hback. clear Hback.
  destruct path as [| |raw]; cbn [new_lines].
  - cbn [find_line]. by rewrite Hstart.
  - cbn [find_line]. by rewrite Hstart.
  - pose proof (find_line_spec ("export " +:+ k +:+ "=") (lines_of raw)) as Hspec.
    destruct (find_line _ (lines_of raw)) as [i|].
    + destruct Hspec as (pre & old & post & -> & <- & Hpre & Hold).
      rewrite insert_middle, (find_line_split _ _ _ _ Hpre Hstart).
      cbv beta iota. by rewrite !insert_middle.
    + rewrite (find_line_split _ _ _ [] Hspec Hstart).
      cbv beta iota. by rewrite insert_middle.
Qed.

(** X1. Two calls of [set_env] for one key leave the environment and the
    file as the second call alone would: the line is rewritten in place,
    never duplicated. *)
Theorem set_env_last_write_wins (w : world) (k v1 v2 : string) :
  legal_assignment k v1 = true -> legal_assignment k v2 = true ->
  plain k = true -> plain v1 = true ->
  (forall raw, env_path w = File raw -> terminated raw = true) ->
  (w1 ← set_env w k v1; set_env w1 k v2) = set_env w k v2.
Proof.
  intros Hl1 Hl2 Hk Hv1 Hterm. destruct w as [env path]. cbn [env_path] in Hterm.
  unfold set_env, environ_setitem. cbn [environ env_path].
  rewrite Hl1, Hl2, !bind_ok.
  destruct path as [| |raw]; [done| |].
  - rewrite bind_ok. cbn [environ env_path]. rewrite bind_ok.
    rewrite insert_insert_eq. by rewrite (new_lines_twice NoFile).
  - rewrite bind_ok. cbn [environ env_path]. rewrite bind_ok.
    rewrite insert_insert_eq. by rewrite (new_lines_twice (File raw)).
Qed.

Lemma set_env_last_write_wins_witness :
  (w1 ← set_env {| environ := ∅; env_path := File two_settings |} "QT_SCALE" "2";
   set_env w1 "QT_SCALE" "1.25")
  = set_env {| environ := ∅; env_path := File two_settings |} "QT_SCALE" "1.25".
Proof.
  apply (set_env_last_write_wins
           {| environ := ∅; env_path := File two_settings |} "QT_SCALE" "2" "1.25").
  - vm_compute. reflexivity.
  - vm_compute. reflexivity.
  - vm_compute. reflexivity.
  - vm_compute. reflexivity.
  - intros raw [= <-]. vm_compute. reflexivity.
Defined.

(** X2. What [set_env] stored is what [get_env] returns in the same
    process, whatever the file holds, and the other variables of the
    environment are read as before. *)
Theorem get_env_after_set_env (w w' : world) (k v : string) :
  set_env w k v = Ok w' ->
  forall (orig : gmap string string) (d : option string),
    get_env (environ w') orig k d = Some v /\
    forall k', k' <> k ->
      get_env (environ w') orig k' d = get_env (environ w) orig k' d.
Proof.
  unfold set_env, environ_setitem.
  destruct (legal_assignment k v); [|done]. rewrite bind_ok.
  destruct (env_path w); [done| |]; intros [= <-]; intros orig d;
    unfold get_env; cbn [environ]; (split; [by rewrite lookup_insert_eq|]);
    intros k' Hk'; by rewrite lookup_insert_ne.
Qed.

Lemma get_env_after_set_env_witness :
  exists w',
    set_env no_store "QT_FONT" "Noto Sans" = Ok w' /\
    get_env (environ w') ∅ "QT_FONT" (Some "default") = Some "Noto Sans".
Proof.
  eexists. split; [reflexivity|].
  eapply (get_env_after_set_env no_store _ "QT_FONT" "Noto Sans"). reflexivity.
Defined.

Lemma split_length (c : ascii) (s : string) :
  length (split c s) = S (count c s).
Proof.
  induction s as [|a s IH]; [done|].
  cbn [split count]. destruct (decide (a = c)); cbn [length].
  - by rewrite IH.
  - destruct (split c s); cbn [length] in *; done.
Qed.

Lemma count_lstrip (c : ascii) (s : string) :
  is_space c = false -> count c (lstrip s) = count c s.
Proof.
  intros Hc. induction s as [|a s IH]; [done|].
  cbn [lstrip]. destruct (is_space a) eqn:Ha; [|done].
  cbn [count]. rewrite decide_False by congruence. done.
Qed.

Lemma count_rstrip (c : ascii) (s : string) :
  is_space c = false -> count c (rstrip s) = count c s.
Proof.
  intros Hc. induction s as [|a s IH]; [done|].
  cbn [rstrip count]. destruct (rstrip s) as [|b r] eqn:Hr.
  - cbn [count] in IH. destruct (is_space a) eqn:Ha.
    + rewrite decide_False by congruence. done.
    + cbn [count]. by rewrite <- IH.
  - cbn [count]. by rewrite <- IH.
Qed.

Lemma count_strip (c : ascii) (s : string) :
  is_space c = false -> count c (strip s) = count c s.
Proof. intros Hc. unfold strip. by rewrite count_rstrip, count_lstrip. Qed.

(** The loop accepts a line when it is no [export] line or has exactly
    one [=] after the prefix. *)
Lemma loads_count (l : string) :
  loads l = true <->
  (startswith "export " l = true -> count "=" (drop 7 l) = 1%nat).
Proof.
  unfold loads. destruct (startswith "export " l); [|done].
  pose proof (split_length "=" (strip (drop 7 l))) as Hlen.
  rewrite count_strip in Hlen by done.
  destruct (split "=" (strip (drop 7 l))) as [|a [|b [|c r]]]; cbn [length] in Hlen.
  - done.
  - split; [done|]. intros H. specialize (H eq_refl). lia.
  - split; [intros _ _; lia|done].
  - split; [done|]. intros H. specialize (H eq_refl). lia.
Qed.

Lemma load_line_fails (d : gmap string string) (l : string) :
  loads l = false -> load_line d l = Raise ValueError.
Proof.
  unfold loads, load_line. destruct (startswith "export " l); [|done].
  by destruct (split "=" (strip (drop 7 l))) as [|a [|b [|c r]]].
Qed.

Lemma load_lines_outcome (d : gmap string string) (ls : list string) :
  if forallb loads ls then exists d', load_lines d ls = Ok d'
  else load_lines d ls = Raise ValueError.
Proof.
  revert d. induction ls as [|l ls IH]; intros d; [by eexists|].
  cbn [forallb]. rewrite load_lines_cons. destruct (loads l) eqn:Hl.
  - destruct (load_line_loads d l Hl) as [d' ->]. rewrite bind_ok. apply IH.
  - by rewrite (load_line_fails d l Hl).
Qed.

(** X3. Start-up of the store on posix returns exactly when every line of
    the file that starts with [export ] has one [=] and no more after
    the prefix; otherwise it raises [ValueError]. *)
Theorem startup_needs_one_equals_sign (raw : string) :
  ((exists d, orignal_environ (File raw) = Ok d) <->
   (forall line, line ∈ lines_of raw -> startswith "export " line = true ->
                 count "=" (drop 7 line) = 1%nat)) /\
  ((exists d, orignal_environ (File raw) = Ok d) \/
   orignal_environ (File raw) = Raise ValueError).
Proof.
  cbn [orignal_environ].
  pose proof (load_lines_outcome ∅ (lines_of raw)) as Hout.
  destruct (forallb loads (lines_of raw)) eqn:Hall.
  - split; [|by left]. split; [|done]. intros _ line Hin.
    apply loads_count. rewrite forallb_forall in Hall. apply Hall.
    by apply list_elem_of_In.
  - split; [|by right]. rewrite Hout. split; [by intros [? ?]|].
    intros H. exfalso. apply not_true_iff_false in Hall. apply Hall.
    apply forallb_forall. intros line Hin. apply loads_count, H.
    by apply list_elem_of_In.
Qed.

Lemma load_lines_filter (d : gmap string string) (ls : list string) :
  load_lines d (List.filter (startswith "export ") ls) = load_lines d ls.
Proof.
  revert d. induction ls as [|l ls IH]; intros d; [done|].
  cbn [List.filter]. destruct (startswith "export " l) eqn:Hl.
  - rewrite !load_lines_cons. destruct (load_line d l); [|done].
    rewrite !bind_ok. apply IH.
  - rewrite load_lines_cons. unfold load_line. rewrite Hl, bind_ok. apply IH.
Qed.

(** X4. Start-up on posix reads the lines that start with [export ] and
    nothing else: two files with the same such lines, in the same order,
    give the same dictionary or the same error. *)
Theorem startup_reads_export_lines_only (raw1 raw2 : string) :
  List.filter (startswith "export ") (lines_of raw1)
    = List.filter (startswith "export ") (lines_of raw2) ->
  orignal_environ (File raw1) = orignal_environ (File raw2).
Proof.
  intros H. cbn [orignal_environ].
  by rewrite <- (load_lines_filter ∅ (lines_of raw1)), H, load_lines_filter.
Qed.

Lemma startup_reads_export_lines_only_witness :
  orignal_environ (File ("# settings" +:+ NL +:+ two_settings +:+ "unset X"))
    = orignal_environ (File two_settings).
Proof.
  apply (startup_reads_export_lines_only
           ("# settings" +:+ NL +:+ two_settings +:+ "unset X") two_settings).
  vm_compute. reflexivity.
Defined.

(** X5. Among the lines of the file that bind one key, the last one
    decides what start-up on posix stores for it. *)
Theorem startup_last_binding_wins (raw : string) (pre : list string) (l : string)
  (post : list string) (key value : string) :
  lines_of raw = pre ++ l :: post ->
  forallb loads (lines_of raw) = true ->
  startswith "export " l = true ->
  split "=" (strip (drop 7 l)) = [key; value] ->
  forallb (fun l' => negb (defines key l')) post = true ->
  exists d, orignal_environ (File raw) = Ok d /\ d !! key = Some value.
Proof.
  intros Hsplit Hloads Hexp Hl Hpost. cbn [orignal_environ].
  rewrite Hsplit in *. rewrite forallb_app in Hloads. cbn [forallb] in Hloads.
  apply andb_true_iff in Hloads as [Hl1 Hl2].
  apply andb_true_iff in Hl2 as [_ Hl2].
  destruct (load_lines_loads ∅ pre Hl1) as [d1 Hd1].
  rewrite load_lines_app, Hd1, bind_ok, load_lines_cons.
  unfold load_line at 1. rewrite Hexp, Hl, bind_ok.
  destruct (load_lines_other (<[key := value]> d1) key post Hl2 Hpost)
    as (d2 & Hd2 & Heq).
  exists d2. split; [done|]. by rewrite Heq, lookup_insert_eq.
Qed.

Lemma startup_last_binding_wins_witness :
  exists d,
    orignal_environ
      (File ("export QT_SCALE=1" +:+ NL +:+ "export QT_SCALE=2" +:+ NL)) = Ok d /\
    d !! "QT_SCALE" = Some "2".
Proof.
  apply (startup_last_binding_wins
           ("export QT_SCALE=1" +:+ NL +:+ "export QT_SCALE=2" +:+ NL)
           ["export QT_SCALE=1" +:+ NL] ("export QT_SCALE=2" +:+ NL) []
           "QT_SCALE" "2");
    vm_compute; reflexivity.
Defined.

(** A line that starts with [export k=] and is accepted binds [k]. *)
Lemma prefix_line_binds_key (k old : string) :
  storable_key k = true ->
  startswith ("export " +:+ k +:+ "=") old = true ->
  loads old = true ->
  exists val, forall d, load_line d old = Ok (<[k := val]> d).
Proof.
  unfold storable_key. rewrite !andb_true_iff.
  intros [[[[Hne Hkeq] _] _] Hkl] Hstart.
  apply negb_true_iff, bool_decide_eq_false in Hne.
  apply negb_true_iff in Hkeq. apply bool_decide_eq_true in Hkl.
  apply startswith_split in Hstart as [rest ->].
  assert ((("export " +:+ k +:+ "=") +:+ rest)
          = "export " +:+ k +:+ String "=" rest) as ->
    by by rewrite !append_assoc.
  intros Hloads.
  assert (split "=" (strip (drop 7 ("export " +:+ k +:+ String "=" rest)))
          = k :: split "=" (rstrip rest)) as Hsplit.
  { change (drop 7 ("export " +:+ k +:+ String "=" rest))
      with (k +:+ String "=" rest).
    unfold strip. rewrite (lstrip_app k _ Hne Hkl), rstrip_app.
    assert (rstrip (String "=" rest) = String "=" (rstrip rest)) as ->.
    { cbn [rstrip]. by destruct (rstrip rest). }
    by rewrite split_app. }
  unfold loads in Hloads. unfold load_line.
  change (startswith "export " ("export " +:+ k +:+ String "=" rest)) with true in *.
  cbv iota in *. rewrite Hsplit in *.
  destruct (split "=" (rstrip rest)) as [|val [|b r]]; try done.
  by exists val.
Qed.

(** Loading the same lines into two dictionaries that agree off [k]
    gives dictionaries that agree off [k]. *)
Lemma load_lines_agree (k : string) (ls : list string) (d1 d2 d1' : gmap string string) :
  (forall k', k' <> k -> d1 !! k' = d2 !! k') ->
  load_lines d1 ls = Ok d1' ->
  exists d2', load_lines d2 ls = Ok d2' /\
              forall k', k' <> k -> d1' !! k' = d2' !! k'.
Proof.
  revert d1 d2. induction ls as [|l ls IH]; intros d1 d2 Hagree.
  - intros [= <-]. by exists d2.
  - rewrite !load_lines_cons. unfold load_line.
    destruct (startswith "export " l).
    + destruct (split "=" (strip (drop 7 l))) as [|a [|b [|c r]]]; try done.
      rewrite !bind_ok. apply IH. intros k' Hk'.
      destruct (decide (a = k')) as [->|].
      * by rewrite !lookup_insert_eq.
      * rewrite !lookup_insert_ne by done. by apply Hagree.
    + rewrite !bind_ok. by apply IH.
Qed.

(** What the start-up reads after [set_env k v] differs from what it
    read before at [k] only. *)
Lemma startup_after_set_env (path : path_state) (k v : string) :
  storable_key k = true -> storable_value v = true ->
  path <> NoDirectory ->
  (forall raw, path = File raw ->
     terminated raw = true /\ forallb loads (lines_of raw) = true) ->
  exists orig orig',
    orignal_environ path = Ok orig /\
    orignal_environ (File (writelines (new_lines path k v))) = Ok orig' /\
    forall k', k' <> k -> orig' !! k' = orig !! k'.
Proof.
  intros Hk Hv Hdir Hfile.
  destruct (storable_key_legal k v Hk Hv) as (Hlegal & Hpk & Hpv).
  cbn [orignal_environ].
  rewrite lines_of_new_lines; [|done..|].
  2:{ intros raw Hraw _. by destruct (Hfile raw Hraw). }
  destruct path as [| |raw]; [done| |]; cbn [new_lines orignal_environ].
  - exists ∅, (<[k := v]> ∅). split; [done|]. split.
    + rewrite load_lines_cons, (load_export_line _ _ _ Hk Hv), !bind_ok. done.
    + intros k' Hk'. by rewrite lookup_insert_ne.
  - destruct (Hfile raw eq_refl) as [_ Hloads].
    pose proof (find_line_spec ("export " +:+ k +:+ "=") (lines_of raw)) as Hspec.
    destruct (find_line _ (lines_of raw)) as [i|].
    + destruct Hspec as (pre & old & post & Hsplit & <- & Hpre & Hold).
      rewrite Hsplit in *. rewrite insert_middle.
      rewrite forallb_app in Hloads. cbn [forallb] in Hloads.
      apply andb_true_iff in Hloads as [Hl1 Hl2].
      apply andb_true_iff in Hl2 as [Hlold Hl2].
      destruct (load_lines_loads ∅ pre Hl1) as [d1 Hd1].
      destruct (prefix_line_binds_key k old Hk Hold Hlold) as [val Hval].
      rewrite !load_lines_app, Hd1, !bind_ok, !load_lines_cons.
      rewrite (load_export_line _ _ _ Hk Hv), Hval, !bind_ok.
      destruct (load_lines_loads (<[k := val]> d1) post Hl2) as [dA HdA].
      destruct (load_lines_agree k post (<[k := val]> d1) (<[k := v]> d1) dA)
        as (dB & HdB & Hagree); [|done|].
      { intros k0 Hk0. by rewrite !lookup_insert_ne. }
      exists dA, dB. split; [done|]. split; [done|].
      intros k' Hk'. symmetry. by apply Hagree.
    + destruct (load_lines_loads ∅ (lines_of raw) Hloads) as [d1 Hd1].
      exists d1, (<[k := v]> d1). split; [done|]. split.
      * rewrite load_lines_app, Hd1, !bind_ok, load_lines_cons.
        rewrite (load_export_line _ _ _ Hk Hv), !bind_ok. done.
      * intros k' Hk'. by rewrite lookup_insert_ne.
Qed.

(** The import reads the stored values of [QT_API] and [QT_SCALE] and
    of no other key: the values of [QT_FONT_SIZE] and [QT_FONT] are
    fetched, but nothing in the import depends on them. *)
Lemma posix_body_agree (h : Later.host) (orig orig' env : gmap string string) :
  orig' !! "QT_API" = orig !! "QT_API" ->
  orig' !! "QT_SCALE" = orig !! "QT_SCALE" ->
  Later.module_body h (Later.posix_lookup orig') env
    = Later.module_body h (Later.posix_lookup orig) env.
Proof.
  intros Hapi Hscale. unfold Later.module_body, Later.posix_lookup, get_env.
  rewrite !bind_ok, Hapi.
  destruct (Resolver.resolve _ _).1 as [r|e]; [|done]. rewrite !bind_ok.
  destruct (Resolver.API_NAME r); [|done].
  destruct (Later.others h r); [|done]. rewrite !bind_ok.
  by rewrite Hscale.
Qed.

(** X6. On posix, [set_env] for a key other than [QT_API] and
    [QT_SCALE], the two stored values the import itself depends on,
    leaves what a later process reads for every other key as it was:
    its import ends the same way, with the same exception if any, and
    [get_env] then returns the same value. *)
Theorem set_env_keeps_other_keys (h : Later.host) (env env' : gmap string string)
  (path : path_state) (k v k' : string) (d : option string) :
  storable_key k = true -> storable_value v = true ->
  path <> NoDirectory ->
  (forall raw, path = File raw ->
     terminated raw = true /\ forallb loads (lines_of raw) = true) ->
  k <> "QT_API" -> k <> "QT_SCALE" ->
  k' <> k ->
  exists w',
    set_env {| environ := env; env_path := path |} k v = Ok w' /\
    Later.posix_get_env h (env_path w') env' k' d
      = Later.posix_get_env h path env' k' d.
Proof.
  intros Hk Hv Hdir Hfile Hapi Hscale Hne.
  destruct (storable_key_legal k v Hk Hv) as (Hlegal & Hpk & Hpv).
  exists {| environ := <[k := v]> env;
            env_path := File (writelines (new_lines path k v)) |}.
  split.
  { unfold set_env, environ_setitem. cbn [environ env_path].
    rewrite Hlegal, bind_ok. by destruct path. }
  cbn [env_path].
  destruct (startup_after_set_env path k v Hk Hv Hdir Hfile)
    as (orig & orig' & Horig & Horig' & Hagree).
  unfold Later.posix_get_env, Later.posix_import.
  rewrite Horig, Horig', !bind_ok.
  rewrite (posix_body_agree h orig orig' env') by (apply Hagree; congruence).
  destruct (Later.module_body h (Later.posix_lookup orig) env') as [env''|e]; [|done].
  rewrite !bind_ok. cbn [fst snd]. unfold get_env.
  by rewrite (Hagree k' Hne).
Qed.

Lemma set_env_keeps_other_keys_witness :
  exists w',
    set_env {| environ := ∅; env_path := File Later.one_setting |}
      "QT_FONT" "Noto Sans" = Ok w' /\
    Later.posix_get_env Later.plain_host (env_path w') ∅ "QT_API" (Some "auto")
      = Later.posix_get_env Later.plain_host (File Later.one_setting) ∅
          "QT_API" (Some "auto").
Proof.
  apply (set_env_keeps_other_keys Later.plain_host ∅ ∅ (File Later.one_setting)
           "QT_FONT" "Noto Sans" "QT_API").
  - vm_compute. reflexivity.
  - vm_compute. reflexivity.
  - discriminate.
  - intros raw [= <-]. split; vm_compute; reflexivity.
  - discriminate.
  - discriminate.
  - discriminate.
Defined.

End StoreMore.

(** ** More on the store on nt *)

Section NtMore.
Import Text.

Lemma redefined_keys_spec (p : Nt.process) (k : string) :
  k ∈ Nt.python_redefined_keys p <->
  exists v, Nt.os_environ p !! k = Some v /\ Nt.orignal_environ p !! k <> Some v.
Proof.
  unfold Nt.python_redefined_keys. rewrite elem_of_dom. split.
  - intros [v Hv]. apply map_lookup_filter_Some in Hv as [Hv Hne]. by exists v.
  - intros (v & Hv & Hne). exists v. by apply map_lookup_filter_Some.
Qed.

(** X7. On nt, a variable that Python code changed or added before the
    module was loaded is returned from [os.environ], whatever the
    registry holds. *)
Theorem nt_python_override_wins (p : Nt.process) (reg : Nt.registry)
  (k v : string) (d : option string) :
  upper k = k ->
  Nt.os_environ p !! k = Some v ->
  Nt.orignal_environ p !! k <> Some v ->
  Nt.get_env p reg k d = Ok (Some v).
Proof.
  intros Hup Hv Hne. unfold Nt.get_env.
  rewrite decide_True by (apply redefined_keys_spec; by exists v).
  by rewrite Hup, Hv.
Qed.

Lemma nt_python_override_wins_witness :
  Nt.get_env Nt.overriding_process Nt.user_registry "QT_API" (Some "auto")
    = Ok (Some "pyside6").
Proof.
  apply (nt_python_override_wins Nt.overriding_process Nt.user_registry
           "QT_API" "pyside6").
  - reflexivity.
  - reflexivity.
  - vm_compute. discriminate.
Defined.

(** X8. On nt, a variable inherited unchanged from the parent process
    does not hide the registry: the value under the user key is
    returned, and the value under the machine key when the user key has
    none. *)
Theorem nt_registry_beats_inherited (p : Nt.process) (reg : Nt.registry)
  (k : string) (d : option string) :
  Nt.os_environ p !! k = Nt.orignal_environ p !! k ->
  (forall r, Nt.HKCU_Environment reg !! upper k = Some r ->
             Nt.get_env p reg k d = Ok (Some r)) /\
  (forall r, Nt.HKCU_Environment reg !! upper k = None ->
             Nt.HKLM_Environment reg !! upper k = Some r ->
             Nt.get_env p reg k d = Ok (Some r)).
Proof.
  intros Hsame.
  assert (k ∉ Nt.python_redefined_keys p) as Hnot.
  { rewrite redefined_keys_spec. intros (v & Hv & Hne). congruence. }
  split.
  - intros r Hr. unfold Nt.get_env, Nt.QueryValueEx.
    rewrite decide_False by done. by rewrite Hr.
  - intros r Hu Hm. unfold Nt.get_env, Nt.QueryValueEx.
    rewrite decide_False by done. by rewrite Hu, Hm.
Qed.

Lemma nt_registry_beats_inherited_witness :
  Nt.get_env Nt.inheriting_process Nt.user_registry "QT_API" (Some "auto")
    = Ok (Some "pyqt5").
Proof.
  refine (proj1 (nt_registry_beats_inherited Nt.inheriting_process
                   Nt.user_registry "QT_API" (Some "auto") _) "pyqt5" _).
  - vm_compute. reflexivity.
  - reflexivity.
Defined.

(** X9. On nt, in the process that called [set_env]: for a key that was
    not redefined when the module was loaded, [get_env] still answers
    from the registry, so until [setx] has run it returns the old value
    stored under the user key, or else the one under the machine key;
    only with no value under either key does it return the new one. *)
Theorem nt_get_env_after_set_env (p p1 : Nt.process) (c : Nt.command)
  (reg : Nt.registry) (k v : string) (d : option string) :
  k ∉ Nt.python_redefined_keys p ->
  Nt.set_env p k v = Ok (p1, c) ->
  (forall old, Nt.HKCU_Environment reg !! upper k = Some old ->
     Nt.get_env_loaded (Nt.python_redefined_keys p) p1 reg k d = Ok (Some old)) /\
  (forall old, Nt.HKCU_Environment reg !! upper k = None ->
     Nt.HKLM_Environment reg !! upper k = Some old ->
     Nt.get_env_loaded (Nt.python_redefined_keys p) p1 reg k d = Ok (Some old)) /\
  (Nt.HKCU_Environment reg !! upper k = None ->
   Nt.HKLM_Environment reg !! upper k = None ->
   Nt.get_env_loaded (Nt.python_redefined_keys p) p1 reg k d = Ok (Some v)).
Proof.
  intros Hnot Hset. unfold Nt.set_env in Hset.
  destruct (Nt.legal_assignment k v); [|done]. injection Hset as <- <-.
  unfold Nt.get_env_loaded, Nt.QueryValueEx. rewrite decide_False by done.
  split; [|split].
  - intros old ->. done.
  - intros old -> ->. done.
  - intros -> ->. cbn [Nt.os_environ]. by rewrite lookup_insert_eq.
Qed.

Lemma nt_get_env_after_set_env_witness :
  exists p1 c,
    Nt.set_env Nt.bare_process "QT_API" "pyside6" = Ok (p1, c) /\
    Nt.get_env_loaded (Nt.python_redefined_keys Nt.bare_process) p1
      Nt.user_registry "QT_API" (Some "auto") = Ok (Some "pyqt5").
Proof.
  eexists _, _. split; [reflexivity|].
  refine (proj1 (nt_get_env_after_set_env Nt.bare_process _ _ Nt.user_registry
                   "QT_API" "pyside6" (Some "auto") _ _) "pyqt5" _).
  - apply (bool_decide_unpack _). vm_compute. exact I.
  - reflexivity.
  - reflexivity.
Defined.

End NtMore.

(** ** More on resolution *)

Section ResolverMore.
Import Text Resolver.

(** Settle the tests of the import chain on literal names and use the
    known outcomes of the try bodies. *)
Ltac run_chain :=
  unfold import_chain, stage, PYQT5_API, PYSIDE2_API, PYQT6_API, PYSIDE6_API;
  repeat first
    [ rewrite decide_True by by_evaluation
    | rewrite decide_False by by_evaluation
    | match goal with
      | H : try_body _ _ = _ |- _ => rewrite H
      end ].

(** Split a hypothesis on every element of a literal list. *)
Ltac split_forall :=
  repeat match goal with
         | H : Forall _ (_ :: _) |- _ => apply Forall_cons in H as [? H]
         end.

(** All the ways to cut a literal list as a hypothesis says. *)
Ltac cut_list H :=
  lazymatch type of H with
  | _ :: _ = ?l ++ _ =>
      destruct l as [|? l]; cbn [app] in H;
      [cut_list H | injection H as <- H; cut_list H]
  | [] = ?l ++ _ =>
      destruct l; cbn [app] in H; [cut_list H | discriminate H]
  | _ :: _ = _ :: _ => injection H as <- H
  | [] = _ :: _ => discriminate H
  | _ => idtac
  end.

Lemma resolve_named (py : interpreter) (r : string) :
  argv0_name py <> "spyder" ->
  lower r ∈ API_NAMES.*1 ->
  resolve py r =
    match import_chain py (lower r) with
    | (Raise e, tr) => (Raise e, tr)
    | (Ok api, tr) =>
        (Ok {| API := api; initial_api := lower r;
               API_NAME := (list_to_map API_NAMES : gmap string string) !! api;
               fallback_warning :=
                 negb (bool_decide (api = lower r)) && binding_specified py |},
         tr)
    end.
Proof.
  intros Hname Hin. unfold resolve, auto_select.
  rewrite (decide_False (P := argv0_name py = "spyder")) by done.
  rewrite (decide_False (P := lower r = "auto")).
  2:{ intros Heq. rewrite Heq in Hin. revert Hin. by_evaluation. }
  rewrite decide_False by (intros Hno; apply Hno, elem_of_app; by left).
  by destruct (import_chain py (lower r)) as [[api|e] tr].
Qed.

(** X10. A request that names a candidate: the candidates are tried from
    the requested one on, in the fixed order, and the first whose import
    succeeds is the resolved binding; the warning is due exactly when
    that is not the requested one and the variable was set. *)
Theorem fallback_follows_priority (py : interpreter) (r : string)
  (pre failed : list (string * string)) (c : string * string)
  (post : list (string * string)) :
  argv0_name py <> "spyder" ->
  API_NAMES = pre ++ failed ++ c :: post ->
  lower r = (List.hd c failed).1 ->
  Forall (fun x => try_body py x.2 = ImportFails) failed ->
  try_body py c.2 = Imported ->
  resolve py r =
    (Ok {| API := c.1; initial_api := lower r; API_NAME := Some c.2;
           fallback_warning :=
             negb (bool_decide (failed = [])) && binding_specified py |},
     ImportOf <$> (failed ++ [c]).*2).
Proof.
  intros Hname Hsplit Hr Hfailed Hc.
  rewrite resolve_named; [|done|].
  2:{ rewrite Hr. unfold API_NAMES in Hsplit.
      cut_list Hsplit; by_evaluation. }
  rewrite Hr. clear Hr. unfold API_NAMES in Hsplit.
  cut_list Hsplit; split_forall; cbn [fst snd List.hd] in *;
    run_chain; reflexivity.
Qed.

Lemma fallback_follows_priority_witness :
  resolve only_pyside2 "PyQt5" =
    (Ok {| API := "pyside2"; initial_api := "pyqt5"; API_NAME := Some "PySide2";
           fallback_warning := false |},
     [ImportOf "PyQt5"; ImportOf "PySide2"]).
Proof.
  apply (fallback_follows_priority only_pyside2 "PyQt5"
           [] [("pyqt5", "PyQt5")] ("pyside2", "PySide2")
           [("pyqt6", "PyQt6"); ("pyside6", "PySide6")]).
  - discriminate.
  - reflexivity.
  - reflexivity.
  - repeat constructor.
  - reflexivity.
Defined.

(** X11. The order is not cyclic: when the requested candidate and all
    after it fail to import, resolution raises the bindings-not-found
    error without trying the candidates before it. *)
Theorem fallback_does_not_wrap (py : interpreter) (r : string)
  (pre : list (string * string)) (c : string * string)
  (rest : list (string * string)) :
  argv0_name py <> "spyder" ->
  API_NAMES = pre ++ c :: rest ->
  lower r = c.1 ->
  Forall (fun x => try_body py x.2 = ImportFails) (c :: rest) ->
  resolve py r =
    (Raise QtBindingsNotFoundError, ImportOf <$> (c :: rest).*2).
Proof.
  intros Hname Hsplit Hr Hfailed.
  rewrite resolve_named; [|done|].
  2:{ rewrite Hr. unfold API_NAMES in Hsplit.
      cut_list Hsplit; by_evaluation. }
  rewrite Hr. clear Hr. unfold API_NAMES in Hsplit.
  cut_list Hsplit; subst rest; split_forall; cbn [fst snd] in *;
    run_chain; reflexivity.
Qed.

Lemma fallback_does_not_wrap_witness :
  resolve only_pyside2 "pyqt6" =
    (Raise QtBindingsNotFoundError, [ImportOf "PyQt6"; ImportOf "PySide6"]).
Proof.
  apply (fallback_does_not_wrap only_pyside2 "pyqt6"
           [("pyqt5", "PyQt5"); ("pyside2", "PySide2")] ("pyqt6", "PyQt6")
           [("pyside6", "PySide6")]).
  - discriminate.
  - reflexivity.
  - reflexivity.
  - repeat constructor.
Defined.

(** X12. An exception other than [ImportError] out of the imports of the
    requested candidate is not caught: resolution ends with it and tries
    no other candidate. *)
Theorem other_exception_ends_resolution (py : interpreter) (r : string)
  (c : string * string) :
  argv0_name py <> "spyder" ->
  c ∈ API_NAMES ->
  lower r = c.1 ->
  try_body py c.2 = Escapes ->
  resolve py r = (Raise OtherError, [ImportOf c.2]).
Proof.
  intros Hname Hc Hr Hbody.
  rewrite resolve_named; [|done|].
  2:{ rewrite Hr. unfold API_NAMES in Hc.
      repeat (apply elem_of_cons in Hc as [->|Hc]; [by_evaluation|]).
      by apply elem_of_nil in Hc. }
  rewrite Hr. clear Hr. unfold API_NAMES in Hc.
  repeat (apply elem_of_cons in Hc as [->|Hc];
          [cbn [fst snd] in *; run_chain; reflexivity|]).
  by apply elem_of_nil in Hc.
Qed.

Lemma other_exception_ends_resolution_witness :
  resolve {| argv0_name := "python"; sys_modules := ∅; find_spec := fun _ => true;
             try_body := fun _ => Escapes; binding_specified := true |} "PySide2"
  = (Raise OtherError, [ImportOf "PySide2"]).
Proof.
  apply (other_exception_ends_resolution _ "PySide2" ("pyside2", "PySide2")).
  - discriminate.
  - by_evaluation.
  - reflexivity.
  - reflexivity.
Defined.

Lemma first_loaded_lower (py : interpreter) (ms : list string) (a : string) :
  first_loaded py ms = Some a -> exists m, a = lower m.
Proof.
  induction ms as [|m ms IH]; [done|]. cbn [first_loaded].
  case_decide; [|done]. intros [= <-]. by exists m.
Qed.

(** What the [auto] branch leaves in [API] is no display name. *)
Lemma auto_select_not_module (py : interpreter) (api a : string) (tr : list event) :
  api ∉ modules -> auto_select py api = (Ok a, tr) -> a ∉ modules.
Proof.
  intros Hapi. unfold auto_select. case_decide; [|by intros [= <- _]].
  destruct (first_loaded py modules) as [a'|] eqn:Hfirst.
  - intros [= <- _]. apply first_loaded_lower in Hfirst as [m ->].
    apply lower_not_module.
  - change modules with ["PyQt5"; "PySide2"; "PyQt6"; "PySide6"].
    cbn [first_importable]. destruct (find_spec py "PyQt5"); [|done].
    intros [= <- _]. by_evaluation.
Qed.

(** X13. Whenever resolution returns, the resolved [API] is one of the
    four keys, [API_NAME] is its display name (the final lookup cannot
    fail), the imports of that binding succeeded, and they were the last
    thing tried. *)
Theorem resolved_binding_was_imported (py : interpreter) (r : string)
  (res : resolution) (tr : list event) :
  resolve py r = (Ok res, tr) ->
  exists m,
    (API res, m) ∈ API_NAMES /\ API_NAME res = Some m /\
    try_body py m = Imported /\ last tr = Some (ImportOf m).
Proof.
  unfold resolve.
  assert ((if decide (argv0_name py = "spyder") then "pyqt5" else lower r)
            ∉ modules) as Hapi.
  { case_decide; [by_evaluation|apply lower_not_module]. }
  destruct (auto_select py _) as [[a|e] tr0] eqn:Hauto; [|done].
  apply (auto_select_not_module py _ a tr0 Hapi) in Hauto. clear Hapi.
  destruct (decide (a ∉ API_NAMES.*1 ++ API_NAMES.*2)) as [|Hvalid]; [done|].
  apply dec_stable in Hvalid. apply elem_of_app in Hvalid as [Hkey|Hmod]; [|done].
  clear Hauto. unfold API_NAMES in Hkey. cbn in Hkey.
  repeat (apply elem_of_cons in Hkey as [->|Hkey];
    [unfold import_chain, stage, PYQT5_API, PYSIDE2_API, PYQT6_API, PYSIDE6_API;
     repeat first
       [ rewrite decide_True by by_evaluation
       | rewrite decide_False by by_evaluation
       | match goal with
         | |- context [try_body py ?m] => destruct (try_body py m) eqn:?
         end ];
     try discriminate;
     intros [= <- <-]; cbn [API API_NAME app];
     eexists;
     (split; [|split; [reflexivity|split; [eassumption|by rewrite last_app]]]);
     by_evaluation|]).
  by apply elem_of_nil in Hkey.
Qed.

Lemma resolved_binding_was_imported_witness :
  exists m,
    ("pyside2", m) ∈ API_NAMES /\ try_body only_pyside2 m = Imported.
Proof.
  destruct (resolved_binding_was_imported only_pyside2 "PyQt5"
              {| API := "pyside2"; initial_api := "pyqt5";
                 API_NAME := Some "PySide2"; fallback_warning := false |}
              [ImportOf "PyQt5"; ImportOf "PySide2"])
    as (m & Hm & _ & Hbody & _).
  - vm_compute. reflexivity.
  - exists m. split; [exact Hm|exact Hbody].
Defined.

End ResolverMore.

(** ** More on scaling *)

Section ScaleMore.
Import Num Scale.

(** X14. With an explicit factor the display is never asked: whatever is
    called and walked, the module state stays as import left it. *)
Theorem explicit_factor_never_queries (d : display) (s : number)
  (acts : list action) :
  run d acts (cached s) = cached s.
Proof. by destruct (run_state d acts (cached s)) as [->| ->]. Qed.

(** X15. Under [auto] with no screen (no application object yet), every
    call raises [IndexError] and stores nothing, so a later call asks the
    display again. *)
Theorem no_screen_raises_and_caches_nothing (obj : value) (args : list value) :
  scaled {| screens := [] |} obj args fresh = (Raise IndexError, fresh).
Proof.
  unfold scaled. destruct args; [|done].
  destruct obj; reflexivity.
Qed.


(** With the factor stored, a call is a function of the object alone. *)
Lemma scaled1_cached_state (d : display) (st : runtime) (s : number) (obj : value) :
  QT_SCALE st = Some s -> (scaled1 d obj st).2 = st.
Proof.
  intros Hs. by rewrite scaled1_state, (current_scale_cached d st s Hs).
Qed.

Lemma scaled_each_ok (d : display) (st : runtime) (s : number)
  (l l' : list value) :
  QT_SCALE st = Some s ->
  scaled_each d l st = (Ok l', st) <->
  Forall2 (fun x y => scaled1 d x st = (Ok y, st)) l l'.
Proof.
  intros Hs. revert l'. induction l as [|x l IH]; intros l'.
  - cbn [scaled_each]. split.
    + intros [= <-]. constructor.
    + intros H. by apply Forall2_nil_inv_l in H as ->.
  - cbn [scaled_each].
    pose proof (scaled1_cached_state d st s x Hs) as Hst.
    destruct (scaled1 d x st) as [[y|e] st1] eqn:Hx; cbn [snd] in Hst; subst st1.
    + destruct (scaled_each d l st) as [[r|e] st2] eqn:Hrest;
        rewrite ?fmap_ok, ?fmap_raise.
      * split.
        -- intros [= <- ->]. constructor; [done|]. by apply IH.
        -- intros H. apply Forall2_cons_inv_l in H as (y' & l2 & Hy & Hl & ->).
           rewrite Hx in Hy. injection Hy as <-.
           apply IH in Hl. by injection Hl as <- <-.
      * split; [done|].
        intros H. apply Forall2_cons_inv_l in H as (y' & l2 & _ & Hl & ->).
        by apply IH in Hl.
    + split; [done|].
      intros H. apply Forall2_cons_inv_l in H as (y' & l2 & Hy & _ & _).
      by rewrite Hx in Hy.
Qed.

(** X16. With a stored factor other than 1, a list is scaled element by
    element: the call returns a list exactly when every element scales,
    and then the result has the scaled elements in the same order (so
    the same length). *)
Theorem scaled_list_elementwise (d : display) (st : runtime) (s : number)
  (l l' : list value) :
  QT_SCALE st = Some s -> eq_int s 1 = false ->
  scaled d (VList l) [] st = (Ok (VList l'), st) <->
  Forall2 (fun x y => scaled d x [] st = (Ok y, st)) l l'.
Proof.
  intros Hs Hne. unfold scaled. rewrite scaled1_list.
  rewrite (current_scale_cached d st s Hs), Hne.
  rewrite <- (scaled_each_ok d st s l l' Hs).
  destruct (scaled_each d l st) as [[r|e] st']; cbn.
  - split; [by intros [= <- <-]|by intros [= <- <-]].
  - split; [done|done].
Qed.

Lemma scaled_list_elementwise_witness :
  scaled standard_screen (VList [VInt 10; VInt 3]) [] (cached (Float half))
    = (Ok (VList [VInt 5; VInt 2]), cached (Float half)).
Proof.
  apply (scaled_list_elementwise standard_screen (cached (Float half)) (Float half)).
  - reflexivity.
  - vm_compute. reflexivity.
  - repeat constructor.
Defined.

(** X17. With a stored factor other than 1, walking the generator object
    returned for a tuple gives the elements the list branch gives for
    the same elements, or fails as it does. *)
Theorem tuple_walk_matches_list (d : display) (st : runtime) (s : number)
  (l : list value) :
  QT_SCALE st = Some s -> eq_int s 1 = false ->
  exists g,
    scaled d (VTuple l) [] st = (Ok g, st) /\
    scaled d (VList l) [] st = ((VList <$> (consume d g st).1), (consume d g st).2).
Proof.
  intros Hs Hne. exists (VGen l). unfold scaled. rewrite scaled1_list.
  cbn [scaled1 consume]. rewrite (current_scale_cached d st s Hs), Hne.
  split; [done|]. by destruct (scaled_each d l st).
Qed.

Lemma tuple_walk_matches_list_witness :
  exists g,
    scaled standard_screen (VTuple [VInt 10; VInt 3]) [] (cached (Float half))
      = (Ok g, cached (Float half)) /\
    consume standard_screen g (cached (Float half))
      = (Ok [VInt 5; VInt 2], cached (Float half)).
Proof.
  destruct (tuple_walk_matches_list standard_screen (cached (Float half))
              (Float half) [VInt 10; VInt 3]) as (g & Hg & Hlist).
  - reflexivity.
  - vm_compute. reflexivity.
  - exists g. split; [exact Hg|].
    vm_compute in Hg. injection Hg as <-. vm_compute. reflexivity.
Defined.

(** Called with further arguments, [scaled] returns them as a tuple
    when the stored factor is 1 and as a generator object over them
    otherwise. *)
Lemma scaled_with_arguments (d : display) (st : runtime) (s : number)
  (obj a : value) (args : list value) :
  QT_SCALE st = Some s ->
  scaled d obj (a :: args) st =
    (Ok (if eq_int s 1 then VTuple (obj :: a :: args)
         else VGen (obj :: a :: args)), st).
Proof.
  intros Hs. unfold scaled. cbn [scaled1].
  rewrite !(current_scale_cached d st s Hs). by destruct (eq_int s 1).
Qed.

Lemma scaled_with_arguments_witness :
  scaled standard_screen (VInt 640) [VInt 480] (cached (Int 1))
    = (Ok (VTuple [VInt 640; VInt 480]), cached (Int 1)).
Proof.
  apply (scaled_with_arguments standard_screen (cached (Int 1)) (Int 1)).
  reflexivity.
Defined.

(** X18. With a stored factor other than 1, a rectangle is scaled field by
    field with the rule for integers: the call returns a rectangle
    exactly when its four fields scale to numbers that a C [int] holds,
    and the rectangle then holds these numbers. *)
Theorem scaled_rect_fieldwise (d : display) (st : runtime) (s : number)
  (x y w h x' y' w' h' : Z) :
  QT_SCALE st = Some s -> eq_int s 1 = false ->
  scaled d (VRect x y w h) [] st = (Ok (VRect x' y' w' h'), st) <->
  scaled d (VInt x) [] st = (Ok (VInt x'), st) /\
  scaled d (VInt y) [] st = (Ok (VInt y'), st) /\
  scaled d (VInt w) [] st = (Ok (VInt w'), st) /\
  scaled d (VInt h) [] st = (Ok (VInt h'), st) /\
  c_int x' && c_int y' && c_int w' && c_int h' = true.
Proof.
  intros Hs Hne. unfold scaled. cbn [scaled1].
  rewrite (current_scale_cached d st s Hs), Hne.
  destruct (scale_int x s) as [x1|e1]; rewrite ?fmap_ok, ?fmap_raise, ?bind_ok;
    [|split; [intros [=]|intros ([=] & _)]].
  destruct (scale_int y s) as [y1|e2]; rewrite ?fmap_ok, ?fmap_raise, ?bind_ok;
    [|split; [intros [=]|intros (_ & [=] & _)]].
  destruct (scale_int w s) as [w1|e3]; rewrite ?fmap_ok, ?fmap_raise, ?bind_ok;
    [|split; [intros [=]|intros (_ & _ & [=] & _)]].
  destruct (scale_int h s) as [h1|e4]; rewrite ?fmap_ok, ?fmap_raise, ?bind_ok;
    [|split; [intros [=]|intros (_ & _ & _ & [=] & _)]].
  unfold QRect. split.
  - destruct (c_int x1 && c_int y1 && c_int w1 && c_int h1) eqn:Hc; [|intros [=]].
    by intros [= <- <- <- <-].
  - intros ([= <-] & [= <-] & [= <-] & [= <-] & Hc). by rewrite Hc.
Qed.

Lemma scaled_rect_fieldwise_witness :
  scaled standard_screen (VRect 10 20 30 40) [] (cached (Int 2))
    = (Ok (VRect 20 40 60 80), cached (Int 2)).
Proof.
  apply (scaled_rect_fieldwise standard_screen (cached (Int 2)) (Int 2)).
  - reflexivity.
  - reflexivity.
  - repeat split; vm_compute; reflexivity.
Defined.

End ScaleMore.

(** ** The keyword wrappers *)

Section WidgetsFacts.
Import Widgets.
Context {V A R : Type}.

Lemma move_key_old (old new : string) (kw : gmap string V) :
  old <> new -> move_key old new kw !! old = None.
Proof.
  intros Hne. unfold move_key. destruct (kw !! old) eqn:H; [|done].
  by rewrite lookup_insert_ne, lookup_delete_eq.
Qed.

Lemma move_key_new (old new : string) (kw : gmap string V) :
  move_key old new kw !! new =
    match kw !! old with Some v => Some v | None => kw !! new end.
Proof.
  unfold move_key. destruct (kw !! old); [|done]. by rewrite lookup_insert_eq.
Qed.

Lemma move_key_other (old new k : string) (kw : gmap string V) :
  k <> old -> k <> new -> move_key old new kw !! k = kw !! k.
Proof.
  intros H1 H2. unfold move_key. destruct (kw !! old); [|done].
  by rewrite lookup_insert_ne, lookup_delete_ne.
Qed.

Lemma move_key_absent (old new : string) (kw : gmap string V) :
  kw !! old = None -> move_key old new kw = kw.
Proof. unfold move_key. by intros ->. Qed.

Lemma move_key_back (a b : string) (kw : gmap string V) :
  a <> b -> kw !! a = None -> move_key a b (move_key b a kw) = kw.
Proof.
  intros Hne Ha. apply map_eq. intros k.
  destruct (decide (k = a)) as [->|Hka].
  - rewrite move_key_old by done. done.
  - destruct (decide (k = b)) as [->|Hkb].
    + rewrite move_key_new, move_key_new.
      destruct (kw !! b) eqn:Hb; [done|]. rewrite Ha.
      by rewrite move_key_old.
    + by rewrite !move_key_other.
Qed.

(** X19. Whichever binding is active, a patched file dialog function is
    called with the keyword of that binding only: the other spelling is
    gone, its value has taken the place of the native one if it was
    given, and every other keyword is passed through. *)
Theorem patched_passes_native_keyword (PYSIDE2 PYSIDE6 : bool)
  (func : @callable V A R) (args : A) (kw : gmap string V) :
  let native := if PYSIDE2 || PYSIDE6 then "dir" else "directory" in
  let foreign := if PYSIDE2 || PYSIDE6 then "directory" else "dir" in
  exists kw',
    patched PYSIDE2 PYSIDE6 func args kw = func args kw' /\
    kw' !! foreign = None /\
    kw' !! native =
      match kw !! foreign with Some v => Some v | None => kw !! native end /\
    forall k, k <> native -> k <> foreign -> kw' !! k = kw !! k.
Proof.
  unfold patched.
  destruct (PYSIDE2 || PYSIDE6); cbn zeta; eexists; (split; [reflexivity|]).
  - split; [by apply move_key_old|]. split; [apply move_key_new|].
    intros k H1 H2. by apply move_key_other.
  - split; [by apply move_key_old|]. split; [apply move_key_new|].
    intros k H1 H2. by apply move_key_other.
Qed.

(** Wrapping a function that is already wrapped changes nothing, so
    patching the dialogs again is harmless. *)
Lemma wrapping_twice_is_wrapping_once (func : @callable V A R) (args : A)
  (kw : gmap string V) :
  _dir_to_directory (_dir_to_directory func) args kw = _dir_to_directory func args kw /\
  _directory_to_dir (_directory_to_dir func) args kw = _directory_to_dir func args kw.
Proof.
  unfold _dir_to_directory, _directory_to_dir.
  split; f_equal; apply move_key_absent; by apply move_key_old.
Qed.

(** X20. The two wrappers undo each other: a caller that writes
    [directory=] reaches a function wrapped both ways with its own
    keywords, and so does a caller that writes [dir=] when the wrappers
    are nested the other way round. *)
Theorem wrappers_are_inverse (func : @callable V A R) (args : A)
  (kw : gmap string V) :
  (kw !! "dir" = None ->
   _directory_to_dir (_dir_to_directory func) args kw = func args kw) /\
  (kw !! "directory" = None ->
   _dir_to_directory (_directory_to_dir func) args kw = func args kw).
Proof.
  unfold _dir_to_directory, _directory_to_dir.
  split; intros H; f_equal; by apply move_key_back.
Qed.

End WidgetsFacts.

(** ** Scaling over the range of pixel sizes *)

Section RangeFacts.
Import Num Scale.

Lemma all_below_spec (f : Z -> bool) (bits : nat) (base z : Z) :
  all_below f bits base = true ->
  base * 2 ^ Z.of_nat bits <= z < (base + 1) * 2 ^ Z.of_nat bits ->
  f z = true.
Proof.
  revert base. induction bits as [|b IH]; intros base Hall Hz.
  - cbn in *. assert (z = base) as -> by lia. done.
  - cbn [all_below] in Hall. apply andb_true_iff in Hall as [H0 H1].
    rewrite Nat2Z.inj_succ, Z.pow_succ_r in Hz by lia.
    destruct (Z_lt_le_dec z ((2 * base + 1) * 2 ^ Z.of_nat b)).
    + apply (IH (2 * base)); [done|]. lia.
    + apply (IH (2 * base + 1)); [done|]. lia.
Qed.

Lemma eps_is_lost_checked :
  all_below (fun z => eps_is_lost z && eps_is_lost (- z)) 13 0 = true.
Proof. vm_compute. reflexivity. Qed.

Lemma eps_is_lost_below_8192 (p : Z) :
  Z.abs p < 8192 -> (s ← add (Int p) (Float eps); round s) = Ok p.
Proof.
  intros Hp.
  assert (eps_is_lost p = true) as Hok.
  { pose proof (all_below_spec _ 13 0 (Z.abs p) eps_is_lost_checked) as H.
    cbv beta in H. apply andb_true_iff in H as [Hpos Hneg].
    - destruct (Z.abs_spec p) as [[_ Heq]|[_ Heq]]; rewrite Heq in *; [done|].
      by rewrite Z.opp_involutive in Hneg.
    - change (2 ^ Z.of_nat 13) with 8192. lia. }
  unfold eps_is_lost in Hok.
  destruct (s ← add (Int p) (Float eps); round s) as [z|e]; [|done].
  apply Z.eqb_eq in Hok. by subst.
Qed.

(** X21. With a stored integer factor other than 1, an integer whose
    product with the factor is below 8192 in magnitude is scaled to
    exactly that product: the added [eps] never shows. *)
Theorem integer_factor_is_exact (d : display) (st : runtime) (v k : Z) :
  QT_SCALE st = Some (Int k) -> k <> 1 -> Z.abs (v * k) < 8192 ->
  scaled d (VInt v) [] st = (Ok (VInt (v * k)), st).
Proof.
  intros Hst Hk Hp. unfold scaled. cbn [scaled1]. unfold current_scale.
  rewrite Hst. cbn [eq_int].
  rewrite (proj2 (Z.eqb_neq k 1) Hk). unfold scale_int. cbn [mul].
  rewrite bind_ok. by rewrite (eps_is_lost_below_8192 _ Hp).
Qed.

Lemma integer_factor_is_exact_witness :
  scaled standard_screen (VInt 1920) [] (cached (Int 2))
    = (Ok (VInt (1920 * 2)), cached (Int 2)).
Proof.
  apply (integer_factor_is_exact standard_screen (cached (Int 2)) 1920 2).
  - reflexivity.
  - discriminate.
  - reflexivity.
Defined.

Lemma half_factor_checked :
  all_below
    (fun z => match scale_int z (Float half) with
              | Ok r => r =? half_with_eps z
              | Raise _ => false
              end
              && match scale_int (- z) (Float half) with
                 | Ok r => r =? half_with_eps (- z)
                 | Raise _ => false
                 end) 13 0 = true.
Proof. vm_compute. reflexivity. Qed.

(** X22. At factor 0.5, the factor read for a screen at 96 dots per inch,
    an integer below 8192 in magnitude is scaled to half of it, a tie
    going to the even neighbour; the added [eps] changes the result for
    two inputs only, 1 (scaled to 1) and -3 (scaled to -1). *)
Theorem half_factor_rounds_ties_to_even (d : display) (st : runtime) (v : Z) :
  QT_SCALE st = Some (Float half) -> Z.abs v < 8192 ->
  scaled d (VInt v) [] st = (Ok (VInt (half_with_eps v)), st).
Proof.
  intros Hst Hv.
  assert (scale_int v (Float half) = Ok (half_with_eps v)) as Hok.
  { pose proof (all_below_spec _ 13 0 (Z.abs v) half_factor_checked) as H.
    cbv beta in H. apply andb_true_iff in H as [Hpos Hneg].
    - destruct (Z.abs_spec v) as [[_ Heq]|[_ Heq]]; rewrite Heq in *.
      + destruct (scale_int v (Float half)); [|done].
        apply Z.eqb_eq in Hpos. by subst.
      + rewrite Z.opp_involutive in Hneg.
        destruct (scale_int v (Float half)); [|done].
        apply Z.eqb_eq in Hneg. by subst.
    - change (2 ^ Z.of_nat 13) with 8192. lia. }
  unfold scaled. cbn [scaled1]. unfold current_scale. rewrite Hst.
  assert (eq_int (Float half) 1 = false) as -> by (vm_compute; reflexivity).
  by rewrite Hok.
Qed.

Lemma half_factor_rounds_ties_to_even_witness :
  scaled standard_screen (VInt 5) [] (cached (Float half))
    = (Ok (VInt (half_with_eps 5)), cached (Float half)).
Proof.
  apply (half_factor_rounds_ties_to_even standard_screen (cached (Float half)) 5).
  - reflexivity.
  - reflexivity.
Defined.

End RangeFacts.


(** ** The errors for missing modules *)

Section ErrorFacts.
Import Errors.

Lemma format_go_plain (look : string -> option value) (s : string) :
  brace_free s = true -> format_go look None s = Some (Ok s).
Proof.
  induction s as [|c s IH]; [done|].
  unfold brace_free in *. cbn [Text.contains format_go].
  repeat case_decide; subst; try done.
  - by rewrite andb_false_r.
  - intros Hs. by rewrite IH.
Qed.

Lemma format_go_ext (look1 look2 : string -> option value)
    (field : option string) (t : string) :
  (forall k, look1 k = look2 k) ->
  format_go look1 field t = format_go look2 field t.
Proof.
  intros Hk.
  assert (forall (n : nat) t field, (String.length t <= n)%nat ->
            format_go look1 field t = format_go look2 field t) as Hall.
  { clear field t. induction n as [|n IH]; intros [|c t] field Hlen;
      cbn [String.length] in Hlen; try lia; destruct field as [f|];
      cbn [format_go]; try done.
    - rewrite Hk, !(IH t) by lia. done.
    - destruct t as [|c' t']; cbn [String.length] in Hlen.
      + by rewrite !(IH "") by (cbn; lia).
      + by rewrite !(IH t'), !(IH (String c' t')) by (cbn [String.length]; lia). }
  by apply (Hall (String.length t)).
Qed.

Lemma format_binding (a : string) :
  format "{binding}" {[ "binding" := Str a ]} = Some (Ok (a +:+ "")).
Proof. reflexivity. Qed.

Lemma base_rejects_binding (g : globals) (handling : bool) (c : cls)
    (extra : string) (attribute : option value) (kwargs : gmap string value) :
  is_Some (kwargs !! "name") ->
  is_Some (kwargs !! "binding") ->
  QtModuleNotFoundError_init g handling c extra attribute kwargs
    = Some (Raise (duplicate_keyword g handling)).
Proof.
  intros [n Hn] [b Hb]. unfold QtModuleNotFoundError_init. rewrite Hn.
  unfold _msg_binding. rewrite format_binding. cbn [keywords].
  rewrite lookup_delete_ne, lookup_delete_eq by done. cbn.
  by rewrite !lookup_delete_ne, Hb by done.
Qed.

(** X23. Every constructor that reaches [QtModuleNotFoundError.__init__]
    with its keywords fails as soon as the caller passes [binding]
    beside [name]: the keyword then reaches [str.format] twice. The
    exception is the interpreter's for a keyword given twice:
    [TypeError], but [KeyError] when the call is made inside an [except]
    block on CPython up to 3.11. *)
Theorem binding_keyword_is_rejected (g : globals) (handling : bool) (c : cls)
    (kwargs : gmap string value) :
  c <> QtModuleNotInQtVersionError ->
  kwargs !! "self" = None ->
  is_Some (kwargs !! "name") ->
  is_Some (kwargs !! "binding") ->
  construct g handling c kwargs
    = Some (Raise (if handling && negb (rewrites_merge_error g)
                   then KeyError else TypeError)).
Proof.
  intros Hc Hself Hn Hb. unfold construct. rewrite Hself.
  destruct c; try done; try by apply base_rejects_binding.
  unfold QtModuleNotInstalledError_init. cbn [keywords].
  rewrite lookup_delete_eq. cbn.
  apply base_rejects_binding;
    by rewrite lookup_insert_ne, lookup_delete_ne by done.
Qed.

Lemma binding_keyword_is_rejected_witness :
  construct with_pyqt5 false QtModuleNotInstalledError
    {[ "name" := Str "Qt3DRender"; "binding" := Str "PyQt5" ]}
    = Some (Raise TypeError)
  /\ construct with_pyqt5 true QtModuleNotInstalledError
       {[ "name" := Str "Qt3DRender"; "binding" := Str "PyQt5" ]}
       = Some (Raise KeyError).
Proof.
  split.
  - apply (binding_keyword_is_rejected with_pyqt5 false QtModuleNotInstalledError).
    + discriminate.
    + reflexivity.
    + by_evaluation.
    + by_evaluation.
  - apply (binding_keyword_is_rejected with_pyqt5 true QtModuleNotInstalledError).
    + discriminate.
    + reflexivity.
    + by_evaluation.
    + by_evaluation.
Defined.

Lemma base_formats (g : globals) (handling : bool) (c : cls) (extra : string)
    (attribute : option value) (kwargs : gmap string value) (n : value) :
  kwargs !! "name" = Some n ->
  kwargs !! "binding" = None ->
  QtModuleNotFoundError_init g handling c extra attribute kwargs
    = match format (if truthy (default PyNone (kwargs !! "msg"))
                    then str (default PyNone (kwargs !! "msg"))
                    else Text.strip (_msg c +:+ " " +:+ extra))
              (<["name" := n]> (<["binding" := Str (API_NAME g)]>
                 (delete "msg" (delete "name" kwargs)))) with
      | Some (Ok m) => Some (Ok {| class := c; msg := m; name := n;
                                   missing_package := attribute |})
      | Some (Raise e) => Some (Raise e)
      | None => None
      end.
Proof.
  intros Hn Hb. unfold QtModuleNotFoundError_init.
  rewrite Hn.
  unfold _msg_binding. rewrite format_binding, append_nil_r. cbn [keywords].
  rewrite lookup_delete_ne, lookup_delete_eq by done.
  by rewrite !lookup_delete_ne, Hb by done.
Qed.

(** X24. [QtModuleNotInstalledError(name=n, missing_package=p)] carries the
    message [The n module was not found. It must be installed separately
    as p.]; the two values are inserted as they are, and any further
    keyword other than [self], [msg] and [binding] is ignored. *)
Theorem not_installed_message (g : globals) (handling : bool)
    (kwargs : gmap string value) (n : value) (p : string) :
  kwargs !! "self" = None ->
  kwargs !! "name" = Some n ->
  kwargs !! "missing_package" = Some (Str p) ->
  kwargs !! "msg" = None ->
  kwargs !! "binding" = None ->
  construct g handling QtModuleNotInstalledError kwargs
    = Some (Ok {| class := QtModuleNotInstalledError;
                  msg := "The " +:+ str n +:+ " module was not found. "
                         +:+ "It must be installed separately as " +:+ p +:+ ".";
                  name := n;
                  missing_package := Some (Str p) |}).
Proof.
  intros Hself Hn Hp Hm Hb. unfold construct. rewrite Hself.
  unfold QtModuleNotInstalledError_init.
  rewrite Hp. cbn [default keywords]. rewrite lookup_delete_eq. cbn.
  rewrite (base_formats _ _ _ _ _ _ n);
    try by rewrite lookup_insert_ne, lookup_delete_ne by done.
  rewrite lookup_insert_ne, lookup_delete_ne, Hm by done.
  cbn [default truthy]. unfold format.
  set (look := fun k : string => _).
  assert (look "name" = Some n) as Hl1.
  { unfold look. by rewrite lookup_insert_eq. }
  assert (look "missing_package" = Some (Str p)) as Hl2.
  { unfold look. rewrite !lookup_insert_ne, !lookup_delete_ne by done.
    by rewrite lookup_insert_eq. }
  clearbody look.
  rewrite (format_go_ext look
             (fun k => if decide (k = "name") then Some n
                       else if decide (k = "missing_package") then Some (Str p)
                       else look k)).
  - vm_compute. reflexivity.
  - intros k. repeat case_decide; subst; done.
Qed.

Lemma not_installed_message_witness :
  construct with_pyqt5 true QtModuleNotInstalledError
    {[ "name" := Str "Qt3DRender"; "missing_package" := Str "PyQt3D" ]}
    = Some (Ok {| class := QtModuleNotInstalledError;
                  msg := "The Qt3DRender module was not found. It must be installed separately as PyQt3D.";
                  name := Str "Qt3DRender";
                  missing_package := Some (Str "PyQt3D") |}).
Proof.
  apply (not_installed_message with_pyqt5 true _ (Str "Qt3DRender") "PyQt3D");
    by_evaluation.
Defined.

(** X25. [QtModuleNotInQtVersionError] looks at [name] only: the message
    is [n does not exist in Qt5.] or [... Qt6.] by the global [QT5], and
    a [msg] or any other keyword of the caller, [self] apart, is
    dropped. *)
Theorem version_error_ignores_arguments (g : globals) (handling : bool)
    (kwargs : gmap string value) (n : value) :
  kwargs !! "self" = None ->
  kwargs !! "name" = Some n ->
  construct g handling QtModuleNotInQtVersionError kwargs
    = Some (Ok {| class := QtModuleNotInQtVersionError;
                  msg := str n +:+ " does not exist in "
                         +:+ (if QT5 g then "Qt5" else "Qt6") +:+ ".";
                  name := n;
                  missing_package := None |}).
Proof.
  intros Hself Hn. unfold construct. rewrite Hself.
  unfold QtModuleNotInQtVersionError_init.
  rewrite Hn. rewrite (base_formats _ _ _ _ _ _ n) by done.
  destruct (QT5 g); vm_compute; reflexivity.
Qed.

Lemma version_error_ignores_arguments_witness :
  construct with_pyqt5 true QtModuleNotInQtVersionError
    {[ "name" := Str "QtMacExtras"; "msg" := Str "{0}"; "binding" := PyNone ]}
    = Some (Ok {| class := QtModuleNotInQtVersionError;
                  msg := "QtMacExtras does not exist in Qt5.";
                  name := Str "QtMacExtras";
                  missing_package := None |}).
Proof.
  apply (version_error_ignores_arguments with_pyqt5 true _ (Str "QtMacExtras"));
    by_evaluation.
Defined.

(** [QtBindingMissingModuleError(name=n)] names the binding in
    [API_NAME]: the message is [The n module was not found. It is not
    currently implemented in API_NAME.], both values inserted as they
    are, and any further keyword other than [self], [msg] and [binding]
    is ignored. *)
Lemma binding_missing_message (g : globals) (handling : bool)
    (kwargs : gmap string value) (n : value) :
  kwargs !! "self" = None ->
  kwargs !! "name" = Some n ->
  kwargs !! "msg" = None ->
  kwargs !! "binding" = None ->
  construct g handling QtBindingMissingModuleError kwargs
    = Some (Ok {| class := QtBindingMissingModuleError;
                  msg := "The " +:+ str n +:+ " module was not found. "
                         +:+ "It is not currently implemented in "
                         +:+ API_NAME g +:+ ".";
                  name := n;
                  missing_package := None |}).
Proof.
  intros Hself Hn Hm Hb. unfold construct. rewrite Hself.
  rewrite (base_formats _ _ _ _ _ _ n), Hm by done.
  cbn [default truthy]. unfold format.
  set (look := fun k : string => _).
  assert (look "name" = Some n) as Hl1.
  { unfold look. by rewrite lookup_insert_eq. }
  assert (look "binding" = Some (Str (API_NAME g))) as Hl2.
  { unfold look. by rewrite lookup_insert_ne, lookup_insert_eq. }
  clearbody look.
  rewrite (format_go_ext look
             (fun k => if decide (k = "name") then Some n
                       else if decide (k = "binding") then Some (Str (API_NAME g))
                       else look k)).
  - vm_compute. reflexivity.
  - intros k. repeat case_decide; subst; done.
Qed.

Lemma binding_missing_message_witness :
  construct with_pyqt5 false QtBindingMissingModuleError
    {[ "name" := Str "QtWebEngine"; "version" := Str "5" ]}
    = Some (Ok {| class := QtBindingMissingModuleError;
                  msg := "The QtWebEngine module was not found. It is not currently implemented in PyQt5.";
                  name := Str "QtWebEngine";
                  missing_package := None |}).
Proof.
  apply (binding_missing_message with_pyqt5 false _ (Str "QtWebEngine"));
    by_evaluation.
Defined.

(** A non-empty [msg] of the caller that holds no brace is the
    message, whatever the class's own templates are. *)
Lemma caller_message_without_fields (g : globals) (handling : bool) (c : cls)
    (kwargs : gmap string value) (n : value) (s : string) :
  c <> QtModuleNotInQtVersionError ->
  kwargs !! "self" = None ->
  kwargs !! "name" = Some n ->
  kwargs !! "msg" = Some (Str s) ->
  s <> "" ->
  brace_free s = true ->
  kwargs !! "binding" = None ->
  construct g handling c kwargs
    = Some (Ok {| class := c; msg := s; name := n;
                  missing_package :=
                    if decide (c = QtModuleNotInstalledError)
                    then Some (default PyNone (kwargs !! "missing_package"))
                    else None |}).
Proof.
  intros Hc Hself Hn Hm Hs Hplain Hb.
  assert (truthy (Str s) = true) as Ht by (by destruct s).
  unfold construct. rewrite Hself.
  destruct c; try done;
    try (rewrite (base_formats _ _ _ _ _ _ n), Hm by done;
         change (default PyNone (Some (Str s))) with (Str s);
         rewrite Ht; cbn [str]; unfold format;
         by rewrite format_go_plain).
  unfold QtModuleNotInstalledError_init. cbn [keywords].
  rewrite lookup_delete_eq. cbn.
  rewrite (base_formats _ _ _ _ _ _ n);
    try by rewrite lookup_insert_ne, lookup_delete_ne by done.
  rewrite lookup_insert_ne, lookup_delete_ne, Hm by done.
  change (default PyNone (Some (Str s))) with (Str s).
  rewrite Ht. cbn [str]. unfold format.
  by rewrite format_go_plain.
Qed.

Lemma caller_message_without_fields_witness :
  construct with_pyqt5 false QtModuleNotInOSError
    {[ "name" := Str "QtWinExtras"; "msg" := Str "Windows only" ]}
    = Some (Ok {| class := QtModuleNotInOSError;
                  msg := "Windows only";
                  name := Str "QtWinExtras";
                  missing_package := None |}).
Proof.
  apply (caller_message_without_fields with_pyqt5 false QtModuleNotInOSError _
           (Str "QtWinExtras") "Windows only"); by_evaluation || discriminate.
Defined.

(** X26. [Qt3DRender.py] under PyQt5 or PyQt6, when the binding has no
    [Qt3DRender]: the import never ends in [QtModuleNotInstalledError].
    The call that builds it passes [binding], and fails inside the
    handler with the interpreter's error for a keyword given twice:
    [KeyError] on CPython up to 3.11, [TypeError] from 3.12. *)
Theorem Qt3DRender_missing_module_ends_in_keyword_error (g : globals)
    (b : selected) :
  PYQT5 b || PYQT6 b = true ->
  Qt3DRender g b ModuleNotFound
    = Some (RaisesException
              (if rewrites_merge_error g then TypeError else KeyError)).
Proof.
  intros Hb.
  assert (forall package,
            construct g true QtModuleNotInstalledError (Qt3DRender_keywords g package)
              = Some (Raise (if rewrites_merge_error g then TypeError else KeyError)))
    as Hcall.
  { intros package. unfold construct.
    assert (Qt3DRender_keywords g package !! "self" = None) as -> by done.
    unfold QtModuleNotInstalledError_init.
    cbn [keywords]. rewrite lookup_delete_eq. cbn.
    rewrite base_rejects_binding.
    - unfold duplicate_keyword. by destruct (rewrites_merge_error g).
    - unfold Qt3DRender_keywords.
      rewrite lookup_insert_ne, lookup_delete_ne by done.
      rewrite lookup_insert_eq. by eexists.
    - unfold Qt3DRender_keywords.
      rewrite lookup_insert_ne, lookup_delete_ne by done.
      rewrite lookup_insert_ne, lookup_insert_eq by done. by eexists. }
  unfold Qt3DRender. rewrite !Hcall.
  destruct (PYQT5 b), (PYQT6 b); done.
Qed.

Lemma Qt3DRender_missing_module_ends_in_keyword_error_witness :
  Qt3DRender with_pyqt5 pyqt5_selected ModuleNotFound
    = Some (RaisesException KeyError).
Proof.
  apply (Qt3DRender_missing_module_ends_in_keyword_error with_pyqt5 pyqt5_selected).
  reflexivity.
Defined.

End ErrorFacts.


(** ** The font size of the application *)

Section FontFacts.
Import Text Fonts.

Lemma length_append (s t : string) :
  String.length (s +:+ t) = (String.length s + String.length t)%nat.
Proof.
  induction s as [|c s IH]; [done|].
  rewrite append_cons. cbn [String.length]. by rewrite IH.
Qed.

Lemma drop_append (s t : string) : drop (String.length s) (s +:+ t) = t.
Proof.
  induction s as [|c s IH]; [by rewrite append_nil_l; destruct t|].
  by rewrite append_cons.
Qed.

Lemma drop_append_le (n : nat) (s t : string) :
  (n <= String.length s)%nat -> drop n (s +:+ t) = drop n s +:+ t.
Proof.
  revert n. induction s as [|c s IH]; intros [|n] Hn; cbn [String.length] in Hn;
    try done; try lia.
  rewrite append_cons. cbn [drop]. apply IH. lia.
Qed.

Lemma take_append (s t : string) : take (String.length s) (s +:+ t) = s.
Proof.
  induction s as [|c s IH]; [by rewrite append_nil_l; destruct t|].
  rewrite append_cons. cbn [String.length take]. by rewrite IH.
Qed.

Lemma lower_append (s t : string) : lower (s +:+ t) = lower s +:+ lower t.
Proof.
  induction s as [|c s IH]; [done|].
  rewrite append_cons. cbn [lower]. by rewrite IH, append_cons.
Qed.

Lemma all_chars_append (p : ascii -> bool) (s t : string) :
  all_chars p (s +:+ t) = all_chars p s && all_chars p t.
Proof.
  induction s as [|c s IH]; [done|].
  rewrite append_cons. cbn [all_chars]. by rewrite IH, andb_assoc.
Qed.

Lemma all_chars_drop (p : ascii -> bool) (n : nat) (s : string) :
  all_chars p s = true -> all_chars p (drop n s) = true.
Proof.
  revert n. induction s as [|c s IH]; intros [|n] Hs; cbn in *; try done.
  apply andb_true_iff in Hs as [_ Hs]. by apply IH.
Qed.

Lemma all_chars_weaken (p q : ascii -> bool) (s : string) :
  (forall c, p c = true -> q c = true) ->
  all_chars p s = true -> all_chars q s = true.
Proof.
  intros Hpq. induction s as [|c s IH]; cbn; [done|].
  intros [Hc Hs]%andb_true_iff. by rewrite (Hpq c Hc), IH.
Qed.

Lemma endswith_append (suffix t : string) : endswith suffix (t +:+ suffix) = true.
Proof.
  unfold endswith. rewrite length_append.
  replace (String.length t + String.length suffix - String.length suffix)%nat
    with (String.length t) by lia.
  rewrite drop_append, bool_decide_eq_true_2 by done.
  rewrite andb_true_r. apply Nat.leb_le. lia.
Qed.

(** A text whose last character exists and satisfies [p] does not end
    with a suffix whose first character fails [p]. *)
Lemma endswith_first_char (p : ascii -> bool) (c : ascii) (suffix t : string) :
  all_chars p t = true -> p c = false ->
  endswith (String c suffix) (t +:+ suffix) = false.
Proof.
  intros Ht Hc. unfold endswith.
  destruct (Nat.leb_spec (String.length (String c suffix))
              (String.length (t +:+ suffix))) as [Hle|]; [|done].
  cbn [andb]. apply bool_decide_eq_false_2. intros Heq.
  rewrite length_append in *. cbn [String.length] in *.
  rewrite drop_append_le in Heq by lia.
  pose proof (all_chars_drop p
                (String.length t + String.length suffix - S (String.length suffix))
                t Ht) as Hd.
  destruct (drop _ t) as [|d r] eqn:Hdrop.
  - rewrite append_nil_l in Heq. apply (f_equal String.length) in Heq.
    cbn [String.length] in Heq. lia.
  - rewrite append_cons in Heq. cbn [all_chars] in Hd.
    injection Heq as -> _. by rewrite Hc in Hd.
Qed.

Lemma isdigit_not_pixels (s : string) :
  isdigit s = true -> endswith "pixels" s = false.
Proof.
  intros Hs. unfold endswith.
  destruct (Nat.leb_spec (String.length "pixels") (String.length s)); [|done].
  cbn [andb]. apply bool_decide_eq_false_2. intros Heq.
  assert (all_chars digit_like s = true) as Hall by (by destruct s).
  apply (all_chars_drop _ (String.length s - String.length "pixels")) in Hall.
  rewrite Heq in Hall. done.
Qed.

(** [QApplication_new_init] asks for at most one size: a value that
    [isdigit] accepts never ends in [pixels]. *)
Lemma size_setters_exclude_each_other (QT_FONT_SIZE : string)
    (rs : list request) :
  size_requests QT_FONT_SIZE = Some (Ok rs) -> (List.length rs <= 1)%nat.
Proof.
  unfold size_requests. case_decide; [by intros [= <-]; cbn; lia|].
  destruct (isdigit QT_FONT_SIZE) eqn:Hd.
  - rewrite (isdigit_not_pixels _ Hd).
    destruct (float_of_digits QT_FONT_SIZE); cbn; intros [= <-]; cbn; lia.
  - destruct (endswith "pixels" QT_FONT_SIZE); [|by intros [= <-]; cbn; lia].
    destruct (int _) as [[z|e]|]; [destruct (Scale.c_int z)|..];
      intros [= <-]; cbn; lia.
Qed.

Lemma size_setters_exclude_each_other_witness :
  size_requests "12 pixels" = Some (Ok [setPixelSize 12])
  /\ (List.length [setPixelSize 12] <= 1)%nat.
Proof.
  split; [reflexivity|].
  apply (size_setters_exclude_each_other "12 pixels"). reflexivity.
Defined.

(** X27. Every size that [QtFontSizeSelector] offers is stored as a text
    that [QApplication_new_init] turns into one call with that number:
    [setPointSizeF] for the point sizes 7 to 14, [setPixelSize] for the
    pixel sizes 0 to 80, where [int] skips the blank that [[:-6]]
    leaves behind. *)
Theorem offered_sizes_are_applied (n : nat) :
  ((7 <= n < 15)%nat ->
   decimal n ∈ font_size_list
   /\ size_requests (lower (decimal n))
        = Some (Ok [setPointSizeF (Num.nearest (Z.of_nat n))]))
  /\ ((n < 81)%nat ->
      (decimal n +:+ " pixels") ∈ font_size_list
      /\ size_requests (lower (decimal n +:+ " pixels"))
           = Some (Ok [setPixelSize (Z.of_nat n)])).
Proof.
  split; intros Hn.
  - assert (n ∈ seq 7 8) as Hin by (rewrite elem_of_seq; lia).
    clear Hn. revert n Hin.
    enough (Forall (fun points =>
              decimal points ∈ font_size_list
              /\ size_requests (lower (decimal points))
                   = Some (Ok [setPointSizeF (Num.nearest (Z.of_nat points))]))
              (seq 7 8)) as Hall.
    { rewrite Forall_forall in Hall. exact Hall. }
    cbv [seq].
    repeat (apply List.Forall_cons;
            [split; [by_evaluation | vm_compute; reflexivity]|]).
    apply List.Forall_nil.
  - assert (n ∈ seq 0 81) as Hin by (rewrite elem_of_seq; lia).
    clear Hn. revert n Hin.
    enough (Forall (fun pixels =>
              (decimal pixels +:+ " pixels") ∈ font_size_list
              /\ size_requests (lower (decimal pixels +:+ " pixels"))
                   = Some (Ok [setPixelSize (Z.of_nat pixels)]))
              (seq 0 81)) as Hall.
    { rewrite Forall_forall in Hall. exact Hall. }
    cbv [seq].
    repeat (apply List.Forall_cons;
            [split; [by_evaluation | vm_compute; reflexivity]|]).
    apply List.Forall_nil.
Qed.

Lemma ascii_digit_facts (c : ascii) :
  ascii_digit c = true ->
  lower_char c = c /\ int_space c = false /\ digit_like c = true
  /\ c <> "-"%char /\ c <> "+"%char /\ c <> "d"%char /\ c <> " "%char.
Proof. destruct c as [[] [] [] [] [] [] [] []]; intros [=]; by vm_compute. Qed.

Lemma digit_like_lower (c : ascii) : digit_like c = true -> lower_char c = c.
Proof. destruct c as [[] [] [] [] [] [] [] []]; intros [=]; by vm_compute. Qed.

Lemma lower_digit_like (s : string) :
  all_chars digit_like s = true -> lower s = s.
Proof.
  induction s as [|c s IH]; [done|]. cbn [all_chars lower].
  intros [Hc Hs]%andb_true_iff. by rewrite (digit_like_lower c Hc), IH.
Qed.

Lemma index_append_new (x : string) (l : list string) :
  x ∉ l -> index x (l ++ [x]) = List.length l.
Proof.
  induction l as [|y l IH]; intros Hx; cbn.
  - by rewrite decide_True.
  - rewrite decide_False by (intros ->; apply Hx; left).
    rewrite IH; [done|]. intros Hin. apply Hx. by right.
Qed.

(** What the offered entries look like. *)
Lemma offered_entries :
  Forall (fun e =>
            e = "default"
            \/ match e with
               | String c _ => ascii_digit c
               | EmptyString => false
               end
               && (all_chars ascii_digit e || endswith " pixels" e) = true)
    (map lower font_size_list).
Proof. by_evaluation. Qed.

Lemma selector_appends (x : string) :
  lower x = x ->
  x <> "default" ->
  match x with
  | String c _ => ascii_digit c
  | EmptyString => false
  end
  && (all_chars ascii_digit x || endswith " pixels" x) = false ->
  isdigit x || endswith " pixels" x = true ->
  QtFontSizeSelector_init x = Ok (font_size_list ++ [x], 90%nat).
Proof.
  intros Hlow Hdef Hshape Hok. unfold QtFontSizeSelector_init. rewrite Hlow.
  assert (x ∉ map lower font_size_list) as Hnot.
  { intros Hin. pose proof offered_entries as Hall.
    rewrite Forall_forall in Hall. destruct (Hall x Hin) as [->|Hs]; [done|].
    by rewrite Hs in Hshape. }
  rewrite decide_False by done. rewrite Hok.
  by rewrite index_append_new.
Qed.

Lemma selector_refuses (x : string) :
  lower x = x ->
  x <> "default" ->
  isdigit x = false ->
  endswith " pixels" x = false ->
  QtFontSizeSelector_init x = Raise PythonQtValueError.
Proof.
  intros Hlow Hdef Hd He. unfold QtFontSizeSelector_init. rewrite Hlow.
  assert (x ∉ map lower font_size_list) as Hnot.
  { intros Hin. pose proof offered_entries as Hall.
    rewrite Forall_forall in Hall. destruct (Hall x Hin) as [->|Hs]; [done|].
    destruct x as [|c r]; [done|].
    apply andb_true_iff in Hs as [_ [Hs|Hs]%orb_true_iff].
    - assert (isdigit (String c r) = true); [|congruence].
      cbn [isdigit]. revert Hs. apply all_chars_weaken.
      intros a Ha. apply (ascii_digit_facts a Ha).
    - congruence. }
  rewrite decide_False by done. by rewrite Hd, He.
Qed.

Lemma all_chars_int_lstrip (p : ascii -> bool) (s : string) :
  all_chars p s = true -> all_chars p (int_lstrip s) = true.
Proof.
  induction s as [|c s IH]; [done|]. cbn [int_lstrip].
  destruct (int_space c); [|done].
  cbn [all_chars]. intros [_ Hs]%andb_true_iff. by apply IH.
Qed.

Lemma all_chars_int_rstrip (p : ascii -> bool) (s : string) :
  all_chars p s = true -> all_chars p (int_rstrip s) = true.
Proof.
  induction s as [|c s IH]; [done|]. cbn [int_rstrip all_chars].
  intros [Hc Hs]%andb_true_iff. specialize (IH Hs).
  destruct (int_rstrip s) as [|d r].
  - destruct (int_space c); [done|]. cbn. by rewrite Hc.
  - cbn [all_chars] in *. by rewrite Hc, IH.
Qed.

Lemma digits_need_a_digit (acc : N) (s : string) :
  all_chars (fun c => negb (ascii_digit c)) s = true ->
  digits acc false s = None.
Proof.
  destruct s as [|c s]; [done|]. cbn [all_chars digits].
  intros [Hc _]%andb_true_iff. apply negb_true_iff in Hc. rewrite Hc.
  by case_decide.
Qed.

Lemma int_needs_a_digit (s : string) :
  (String.length s <= 640)%nat ->
  all_chars (fun c => negb (ascii_digit c)) s = true ->
  int s = Some (Raise ValueError).
Proof.
  intros Hlen Hs. unfold int.
  rewrite (proj2 (Nat.ltb_ge _ _) Hlen).
  apply all_chars_int_lstrip, all_chars_int_rstrip in Hs.
  destruct (int_rstrip (int_lstrip s)) as [|c r]; [done|].
  assert (all_chars (fun c => negb (ascii_digit c)) r = true) as Hr.
  { cbn [all_chars] in Hs. by apply andb_true_iff in Hs as [_ ?]. }
  repeat case_decide; cbn [snd]; by rewrite digits_need_a_digit.
Qed.

Lemma pixels_suffix (t : string) :
  endswith "pixels" (t +:+ " pixels") = true
  /\ without_last_six (t +:+ " pixels") = t +:+ " ".
Proof.
  change (t +:+ " pixels") with (t +:+ (" " +:+ "pixels")).
  rewrite <- append_assoc. split; [apply endswith_append|].
  unfold without_last_six. rewrite length_append.
  replace (String.length (t +:+ " ") + String.length "pixels" - 6)%nat
    with (String.length (t +:+ " ")) by (cbn [String.length]; lia).
  apply take_append.
Qed.

(** X28. A stored size such as [big pixels], with no digit before
    [ pixels], passes the check of [QtFontSizeSelector] and is added to
    the box, while [QApplication_new_init] fails on it with
    [ValueError]. *)
Theorem selector_accepts_what_application_rejects (t : string) :
  all_chars (fun c => negb (ascii_digit c)) t = true ->
  lower t = t ->
  (String.length t <= 600)%nat ->
  QtFontSizeSelector_init (t +:+ " pixels")
    = Ok (font_size_list ++ [t +:+ " pixels"], 90%nat)
  /\ size_requests (t +:+ " pixels") = Some (Raise ValueError).
Proof.
  intros Ht Hlow Hlen.
  destruct (pixels_suffix t) as [Hend Hcut].
  assert (t +:+ " pixels" <> "default") as Hdef.
  { intros Heq. destruct t as [|c t]; [done|].
    apply (f_equal String.length) in Heq.
    rewrite length_append in Heq. cbn [String.length] in Heq. lia. }
  split.
  - apply selector_appends; try done.
    + by rewrite lower_append, Hlow.
    + destruct t as [|c t]; [done|]. rewrite append_cons.
      cbn [all_chars] in Ht. apply andb_true_iff in Ht as [Hc _].
      apply negb_true_iff in Hc. by rewrite Hc.
    + by rewrite endswith_append, orb_true_r.
  - unfold size_requests. rewrite decide_False by done.
    destruct (isdigit (t +:+ " pixels")) eqn:Hd.
    { apply isdigit_not_pixels in Hd. congruence. }
    rewrite Hend, Hcut. rewrite int_needs_a_digit; [done| |].
    + rewrite length_append. cbn [String.length]. lia.
    + by rewrite all_chars_append, Ht.
Qed.

Lemma selector_accepts_what_application_rejects_witness :
  QtFontSizeSelector_init ("big" +:+ " pixels")
    = Ok (font_size_list ++ ["big" +:+ " pixels"], 90%nat)
  /\ size_requests ("big" +:+ " pixels") = Some (Raise ValueError).
Proof.
  apply (selector_accepts_what_application_rejects "big"); by_evaluation.
Defined.

Lemma string_of_uint_digits (d : Decimal.uint) :
  all_chars ascii_digit (NilEmpty.string_of_uint d) = true.
Proof. induction d; cbn [NilEmpty.string_of_uint all_chars]; by rewrite ?IHd. Qed.

Lemma digits_string_of_uint (d : Decimal.uint) (acc : N) (b : bool) :
  digits acc b (NilEmpty.string_of_uint d)
    = match d with
      | Decimal.Nil => if b then Some acc else None
      | _ => Some (N.of_nat (Nat.of_uint_acc d (N.to_nat acc)))
      end.
Proof.
  revert acc b.
  induction d as [|d IH|d IH|d IH|d IH|d IH|d IH|d IH|d IH|d IH|d IH];
    intros acc b; [done|..];
    cbn [NilEmpty.string_of_uint digits Nat.of_uint_acc];
    change (ascii_digit _) with true; cbv iota; rewrite IH;
    rewrite Nat.tail_mul_spec;
    match goal with
    | |- context [N.of_nat (code ?c - 48)] =>
        let k := eval vm_compute in (code c - 48)%nat in
        change (code c - 48)%nat with k
    end;
    match goal with
    | |- match d with Decimal.Nil => Some ?x | _ => _ end
         = Some (N.of_nat (Nat.of_uint_acc d ?m)) =>
        assert (N.to_nat x = m) as Hx by lia;
        rewrite Hx; destruct d; try reflexivity;
        cbn [Nat.of_uint_acc]; by rewrite <- Hx, N2Nat.id
    end.
Qed.

Lemma decimal_shape (n : nat) :
  exists c r, decimal n = String c r /\ ascii_digit c = true
              /\ all_chars ascii_digit (decimal n) = true
              /\ digits 0 false (decimal n) = Some (N.of_nat n).
Proof.
  unfold decimal. pose proof (Unsigned.of_to n) as Hof.
  unfold Nat.of_uint in Hof.
  destruct (Nat.to_uint n) as [|d|d|d|d|d|d|d|d|d|d] eqn:Hd;
    cbn [NilZero.string_of_uint];
    [exists "0"%char, ""; cbn in Hof; subst n; by vm_compute|..];
    rewrite digits_string_of_uint, string_of_uint_digits;
    change (N.to_nat 0) with 0%nat; rewrite Hof;
    cbn [NilEmpty.string_of_uint]; eauto 10.
Qed.

Lemma int_rstrip_digits (s : string) :
  all_chars ascii_digit s = true -> int_rstrip s = s.
Proof.
  induction s as [|c s IH]; [done|]. cbn [all_chars int_rstrip].
  intros [Hc Hs]%andb_true_iff. rewrite (IH Hs).
  destruct s; [|done]. by rewrite (proj1 (proj2 (ascii_digit_facts c Hc))).
Qed.

Lemma string_of_uint_length (d : Decimal.uint) :
  String.length (NilEmpty.string_of_uint d) = Decimal.nb_digits d.
Proof. induction d; cbn [NilEmpty.string_of_uint String.length Decimal.nb_digits]; by rewrite ?IHd. Qed.

Lemma of_uint_acc_lower (d : Decimal.uint) (acc : nat) :
  (acc * 10 ^ Decimal.nb_digits d <= Nat.of_uint_acc d acc)%nat.
Proof.
  revert acc. induction d as [|d IH|d IH|d IH|d IH|d IH|d IH|d IH|d IH|d IH|d IH];
    intros acc; cbn [Decimal.nb_digits Nat.of_uint_acc];
    [rewrite Nat.pow_0_r; lia|..];
    rewrite Nat.tail_mul_spec, Nat.pow_succ_r';
    (etrans; [|apply IH]); nia.
Qed.

Lemma nzhead_shape (d : Decimal.uint) :
  match Decimal.nzhead d with
  | Decimal.D0 _ => False
  | _ => True
  end.
Proof. induction d; cbn [Decimal.nzhead]; done. Qed.

(** A number below ten to the power ten has at most ten digits. *)
Lemma decimal_length (n : nat) :
  (n < 10 ^ 10)%nat -> (String.length (decimal n) <= 10)%nat.
Proof.
  intros Hn. unfold decimal.
  pose proof (Unsigned.of_to n) as Hof.
  pose proof (Unsigned.to_of (Nat.to_uint n)) as Hnorm.
  rewrite Hof in Hnorm. unfold Decimal.unorm in Hnorm.
  pose proof (nzhead_shape (Nat.to_uint n)) as Hshape.
  unfold Nat.of_uint in Hof.
  assert (forall k d, (1 <= k)%nat ->
            (Nat.of_uint_acc d k < 10 ^ 10)%nat -> (Decimal.nb_digits d < 10)%nat)
    as Hdigits.
  { intros k d Hk Hlt. pose proof (of_uint_acc_lower d k) as Hlow.
    apply (Nat.pow_lt_mono_r_iff 10); [lia|]. nia. }
  destruct (Decimal.nzhead (Nat.to_uint n)) as [|d|d|d|d|d|d|d|d|d|d] eqn:Hhead;
    try done; rewrite Hnorm in *; [cbn; lia|..];
    cbn [NilZero.string_of_uint NilEmpty.string_of_uint String.length];
    rewrite string_of_uint_length;
    cbn [Nat.of_uint_acc] in Hof; rewrite Nat.tail_mul_spec in Hof;
    match goal with
    | |- (S ?l <= 10)%nat => change (l < 10)%nat
    end;
    (eapply Hdigits; [|rewrite Hof; exact Hn]); lia.
Qed.

Lemma int_decimal (n : nat) :
  (String.length (decimal n) <= 640)%nat ->
  int (decimal n) = Some (Ok (Z.of_nat n)).
Proof.
  intros Hlen. destruct (decimal_shape n) as (c & r & Heq & Hc & Hall & Hdigits).
  unfold int. rewrite (proj2 (Nat.ltb_ge _ _) Hlen).
  destruct (ascii_digit_facts c Hc) as (_ & Hsp & _ & Hminus & Hplus & _).
  assert (int_lstrip (decimal n) = decimal n) as ->.
  { rewrite Heq. cbn [int_lstrip]. by rewrite Hsp. }
  rewrite (int_rstrip_digits _ Hall). rewrite Heq.
  rewrite !decide_False by done. cbn [fst snd]. rewrite <- Heq, Hdigits.
  by rewrite nat_N_Z.
Qed.

(** X29. A stored size such as [12pixels], a number that a C [int] holds
    directly followed by [pixels], is applied by [QApplication_new_init]
    as that pixel size, while [QtFontSizeSelector] refuses it with
    [PythonQtValueError]: the one tests for [pixels], the other for
    [ pixels]. *)
Theorem application_accepts_what_selector_rejects (n : nat) :
  Z.of_nat n < 2 ^ 31 ->
  size_requests (decimal n +:+ "pixels") = Some (Ok [setPixelSize (Z.of_nat n)])
  /\ QtFontSizeSelector_init (decimal n +:+ "pixels") = Raise PythonQtValueError.
Proof.
  intros Hrange.
  assert (String.length (decimal n) <= 640)%nat as Hlen.
  { etrans; [apply decimal_length|lia].
    apply Nat2Z.inj_lt. rewrite Nat2Z.inj_pow.
    change (Z.of_nat 10 ^ Z.of_nat 10) with 10000000000.
    change (2 ^ 31) with 2147483648 in Hrange. lia. }
  destruct (decimal_shape n) as (c & r & Heq & Hc & Hall & _).
  destruct (ascii_digit_facts c Hc) as (_ & _ & _ & _ & _ & Hd & Hspace).
  assert (decimal n +:+ "pixels" <> "default") as Hdef.
  { rewrite Heq, append_cons. by intros [= -> _]. }
  assert (isdigit (decimal n +:+ "pixels") = false) as Hnum.
  { destruct (isdigit _) eqn:Hnum; [|done].
    apply isdigit_not_pixels in Hnum. by rewrite endswith_append in Hnum. }
  split.
  - unfold size_requests. rewrite decide_False by done.
    rewrite Hnum, endswith_append. unfold without_last_six.
    rewrite length_append.
    replace (String.length (decimal n) + String.length "pixels" - 6)%nat
      with (String.length (decimal n)) by (cbn [String.length]; lia).
    rewrite take_append, int_decimal by done.
    assert (Scale.c_int (Z.of_nat n) = true) as ->; [|done].
    unfold Scale.c_int. apply andb_true_iff. split.
    + apply Z.leb_le. change (- 2 ^ 31) with (-2147483648). lia.
    + by apply Z.ltb_lt.
  - apply selector_refuses; try done.
    + rewrite lower_append. f_equal. apply lower_digit_like.
      revert Hall. apply all_chars_weaken.
      intros a Ha. apply (ascii_digit_facts a Ha).
    + apply (endswith_first_char ascii_digit " " "pixels"); [done|].
      by vm_compute.
Qed.

Lemma application_accepts_what_selector_rejects_witness :
  size_requests (decimal 12 +:+ "pixels") = Some (Ok [setPixelSize 12])
  /\ QtFontSizeSelector_init (decimal 12 +:+ "pixels") = Raise PythonQtValueError.
Proof.
  apply (application_accepts_what_selector_rejects 12). reflexivity.
Defined.

Lemma isdigit_not_blank_pixels (s : string) :
  isdigit s = true -> endswith " pixels" s = false.
Proof.
  intros Hs. unfold endswith.
  destruct (Nat.leb_spec (String.length " pixels") (String.length s)); [|done].
  cbn [andb]. apply bool_decide_eq_false_2. intros Heq.
  assert (all_chars digit_like s = true) as Hall by (by destruct s).
  apply (all_chars_drop _ (String.length s - String.length " pixels")) in Hall.
  rewrite Heq in Hall. done.
Qed.

(** X30. A stored size that [isdigit] accepts but that holds a superscript
    digit passes the check of [QtFontSizeSelector] and is added to the
    box, while [QApplication_new_init] fails on it with [ValueError]:
    [float] does not read such digits. *)
Theorem digit_that_is_no_number_raises (s : string) :
  isdigit s = true ->
  all_chars ascii_digit s = false ->
  QtFontSizeSelector_init s = Ok (font_size_list ++ [s], 90%nat)
  /\ size_requests s = Some (Raise ValueError).
Proof.
  intros Hd Hascii.
  assert (s <> "default") as Hdef by (by intros ->).
  split.
  - apply selector_appends; try done.
    + apply lower_digit_like. by destruct s.
    + by rewrite Hascii, (isdigit_not_blank_pixels _ Hd), andb_false_r.
    + by rewrite Hd.
  - unfold size_requests. rewrite decide_False by done. rewrite Hd.
    unfold float_of_digits. rewrite Hascii.
    by destruct (digits 0 false s).
Qed.

Lemma digit_that_is_no_number_raises_witness :
  QtFontSizeSelector_init (String (ascii_of_nat 178) "")
    = Ok (font_size_list ++ [String (ascii_of_nat 178) ""], 90%nat)
  /\ size_requests (String (ascii_of_nat 178) "") = Some (Raise ValueError).
Proof.
  apply (digit_that_is_no_number_raises (String (ascii_of_nat 178) ""));
    reflexivity.
Defined.

End FontFacts.
